(** * The hierarchical listing of [DriveManager]

    A shallow embedding of [_build_tree], [_print_tree] and [list_files] of
    [src/python_gdrive_organizer.py], and the properties of the tree they
    build and print.

    Python values are modelled as follows.
    - A [str] is the list of its code points, so that comparison,
      slicing and padding count what Python counts.
    - A fetched record is a [file]: the four keys the listing request asks
      for.  The key ['parents'] may be missing, the other three are there.
    - The records of a batch are Python objects shared by [files],
      [file_map], the children lists and the top-level dictionary.  An
      object is named by its position in [files]; the two keys the builder
      adds to it (['is_folder'], ['children']) live in a heap indexed by
      that position, and each is absent until it is assigned.
    - [print] appends to the console, which is part of the state.
    - The Drive service, for [_fetch_all_files], [find_or_create_folder],
      [_move_file] and [sort_demo], is a function from the requests sent
      so far and a request to its reply; every request sent is recorded
      in the session. *)

From Stdlib Require Import String Ascii.
From stdpp Require Import gmap list sorting lexico.

Local Open Scope string_scope.
Local Open Scope list_scope.

(** ** Strings *)

Abbreviation pystr := (list N).

Definition py (s : string) : pystr :=
  map N_of_ascii (list_ascii_of_string s).

(** [s[:n]] and the format specification [:<n]. *)
Definition slice_to (n : nat) (s : pystr) : pystr := take n s.

Definition space : N := 32%N.

Definition ljust (n : nat) (s : pystr) : pystr :=
  s ++ replicate (n - length s) space.

(** [s * n] *)
Fixpoint str_mul (s : pystr) (n : nat) : pystr :=
  match n with
  | O => []
  | S n' => s ++ str_mul s n'
  end.

(** ** Records and the state *)

Record file := File {
  id : pystr;
  name : pystr;
  mimeType : pystr;
  parents : option (list pystr)
}.

Global Instance file_inhabited : Inhabited file := populate (File [] [] [] None).

(** What the builder adds to an object. *)
Record deco := Deco {
  is_folder : option bool;
  children : option (list nat)
}.

Definition undecorated : deco := Deco None None.

Record world := World {
  heap : list deco;
  stdout : list pystr
}.

Definition obj (w : world) (p : nat) : deco := default undecorated (heap w !! p).

(** ** Outcomes and the state monad *)

Inductive exn := KeyError (key : string).

Inductive outcome (A : Type) :=
  | Done (a : A)
  | Raised (e : exn)
  | OutOfFuel.
Arguments Done {A} a.
Arguments Raised {A} e.
Arguments OutOfFuel {A}.

Definition M (A : Type) : Type := world -> outcome (A * world).

Definition ret {A} (a : A) : M A := fun w => Done (a, w).

Definition bind {A B} (c : M A) (k : A -> M B) : M B := fun w =>
  match c w with
  | Done (a, w') => k a w'
  | Raised e => Raised e
  | OutOfFuel => OutOfFuel
  end.

Declare Scope py_scope.
Delimit Scope py_scope with py.
Notation "x <- c ;; k" := (bind c (fun x => k))
  (at level 100, c at next level, right associativity) : py_scope.
Notation "c ;;; k" := (bind c (fun _ => k))
  (at level 100, right associativity) : py_scope.
Local Open Scope py_scope.

Fixpoint for_each {A} (body : A -> M unit) (l : list A) : M unit :=
  match l with
  | [] => ret tt
  | x :: l' => body x ;;; for_each body l'
  end.

Fixpoint map_m {A B} (f : A -> M B) (l : list A) : M (list B) :=
  match l with
  | [] => ret []
  | x :: l' => y <- f x ;; ys <- map_m f l' ;; ret (y :: ys)
  end.

(** Two disciplines of a computation.  The console is only appended to:
    run with [out] already printed, a computation does what it does on an
    empty console, behind [out].  And a computation may leave the heap
    as it found it. *)
Definition prepend {A} (out : list pystr) (r : outcome (A * world))
  : outcome (A * world) :=
  match r with
  | Done (a, w) => Done (a, World (heap w) (out ++ stdout w))
  | Raised e => Raised e
  | OutOfFuel => OutOfFuel
  end.

Definition appends {A} (c : M A) : Prop :=
  forall h out, c (World h out) = prepend out (c (World h [])).

Definition reads {A} (c : M A) : Prop :=
  forall w a w', c w = Done (a, w') -> heap w' = heap w.

(** *** Reading and writing the keys of an object *)

(** [node['is_folder']] *)
Definition getitem_is_folder (p : nat) : M bool := fun w =>
  match is_folder (obj w p) with
  | Some b => Done (b, w)
  | None => Raised (KeyError "is_folder")
  end.

(** [node['children']] *)
Definition getitem_children (p : nat) : M (list nat) := fun w =>
  match children (obj w p) with
  | Some l => Done (l, w)
  | None => Raised (KeyError "children")
  end.

(** [node.get('is_folder')], [node.get('children')] *)
Definition get_is_folder (p : nat) : M (option bool) := fun w =>
  Done (is_folder (obj w p), w).

Definition get_children (p : nat) : M (option (list nat)) := fun w =>
  Done (children (obj w p), w).

(** [node['is_folder'] = b], [node['children'] = l] *)
Definition set_is_folder (p : nat) (b : bool) : M unit := fun w =>
  Done (tt, World (alter (fun d => Deco (Some b) (children d)) p (heap w)) (stdout w)).

Definition set_children (p : nat) (l : list nat) : M unit := fun w =>
  Done (tt, World (alter (fun d => Deco (is_folder d) (Some l)) p (heap w)) (stdout w)).

(** [node['children'].append(c)] *)
Definition append_child (p c : nat) : M unit :=
  l <- getitem_children p ;; set_children p (l ++ [c]).

Definition print (line : pystr) : M unit := fun w =>
  Done (tt, World (heap w) (stdout w ++ [line])).

(** Truth values of what [.get] returns. *)
Definition truthy_bool (o : option bool) : bool := default false o.

Definition truthy_list {A} (o : option (list A)) : bool :=
  match o with
  | Some (_ :: _) => true
  | _ => false
  end.

(** ** [_build_tree] *)

Definition folder_mime : pystr := py "application/vnd.google-apps.folder".

(** [{file['id']: file for file in files}]: a later record with the same
    identifier replaces an earlier one. *)
Definition file_map_from (i : nat) (files : list file) (m : gmap pystr nat)
  : gmap pystr nat :=
  foldl (fun m '(i, f) => <[id f := i]> m) m (zip (seq i (length files)) files).

Definition file_map (files : list file) : gmap pystr nat :=
  file_map_from 0 files ∅.

(** The dictionary [tree], in insertion order: assigning to a key that is
    there keeps its place. *)
Fixpoint dict_set (t : list (pystr * nat)) (k : pystr) (v : nat)
  : list (pystr * nat) :=
  match t with
  | [] => [(k, v)]
  | (k', v') :: t' =>
      if decide (k = k') then (k', v) :: t' else (k', v') :: dict_set t' k v
  end.

(** [tree.values()] *)
Definition values (t : list (pystr * nat)) : list nat := t.*2.

(** The inner loop over [parents]; the result is [is_attached]. *)
Fixpoint attach (fm : gmap pystr nat) (i : nat) (ps : list pystr) : M bool :=
  match ps with
  | [] => ret false
  | parent_id :: ps' =>
      match fm !! parent_id with
      | None => attach fm i ps'
      | Some p =>
          b <- getitem_is_folder p ;;
          if b then append_child p i ;;; ret true
          else attach fm i ps'
      end
  end.

(** The body of the outer loop, for the object at position [i]. *)
Definition build_step (fm : gmap pystr nat) (tree : list (pystr * nat))
    (i : nat) (f : file) : M (list (pystr * nat)) :=
  set_children i [] ;;;
  set_is_folder i (bool_decide (mimeType f = folder_mime)) ;;;
  is_attached <- attach fm i (default [] (parents f)) ;;
  if is_attached then ret tree else ret (dict_set tree (id f) i).

Fixpoint build_loop (fm : gmap pystr nat) (tree : list (pystr * nat))
    (i : nat) (l : list file) : M (list (pystr * nat)) :=
  match l with
  | [] => ret tree
  | f :: l' => tree' <- build_step fm tree i f ;; build_loop fm tree' (S i) l'
  end.

Definition _build_tree (files : list file) : M (list (pystr * nat)) :=
  build_loop (file_map files) [] 0 files.

(** The state in which a batch arrives: no object has the added keys, and
    nothing was printed. *)
Definition fetched (files : list file) : world :=
  World (replicate (length files) undecorated) [].

(** ** [sorted] with the key [(not x['is_folder'], x['name'])] *)

(** Python compares the key tuples component by component, [False] before
    [True] and strings by code point: the lexicographic order of stdpp. *)
Definition key_ltb (a b : bool * pystr) : bool :=
  match trichotomyT lexico a b with
  | inleft (left _) => true
  | _ => false
  end.

(** [sorted] is stable: an element goes behind the elements whose key is
    below its own and before the others, and the list is taken from its
    right end, so that equal keys keep the order they came in. *)
Fixpoint insert_keyed {A} (x : (bool * pystr) * A) (l : list ((bool * pystr) * A))
  : list ((bool * pystr) * A) :=
  match l with
  | [] => [x]
  | y :: l' => if key_ltb y.1 x.1 then y :: insert_keyed x l' else x :: l
  end.

Definition sort_keyed {A} (l : list ((bool * pystr) * A)) : list ((bool * pystr) * A) :=
  foldr insert_keyed [] l.

(** The keys are computed first, one call of [key] per element from left
    to right, then the elements are ordered by them. *)
Definition sorted (key : nat -> M (bool * pystr)) (l : list nat) : M (list nat) :=
  ks <- map_m key l ;; ret (sort_keyed (zip ks l)).*2.

Section Listing.

Variable files : list file.

(** The fetched keys of the object at position [p]; they are never
    assigned to. *)
Definition record (p : nat) : file := files !!! p.

(** [lambda x: (not x['is_folder'], x['name'])] *)
Definition sort_key (x : nat) : M (bool * pystr) :=
  b <- getitem_is_folder x ;; ret (negb b, name (record x)).

(** ** [_print_tree] *)

Definition folder_icon : pystr := [128194%N].
Definition file_icon : pystr := [128196%N].

Definition format_line (level : nat) (folder : bool) (p : nat) : pystr :=
  let indent := str_mul (py "  | ") level in
  let icon := if folder then folder_icon else file_icon in
  let type_str := if folder then py "[Folder]" else py "[File]" in
  indent ++ icon ++ py " " ++ ljust 8 type_str ++ py " "
    ++ ljust 40 (slice_to 40 (name (record p)))
    ++ py " (ID: " ++ id (record p) ++ py ")".

(** The recursion of Python is bounded here by [fuel]; a call that would
    need more ends in [OutOfFuel]. *)
Fixpoint _print_tree (fuel : nat) (node : nat) (level : nat) : M unit :=
  match fuel with
  | O => fun _ => OutOfFuel
  | S fuel' =>
      folder <- get_is_folder node ;;
      print (format_line level (truthy_bool folder) node) ;;;
      kids <- get_children node ;;
      if truthy_bool folder && truthy_list kids then
        node_children <- getitem_children node ;;
        sorted_children <- sorted sort_key node_children ;;
        for_each (fun child => _print_tree fuel' child (level + 1)) sorted_children
      else ret tt
  end.

(** ** [list_files], from the result of [_fetch_all_files] on *)

Definition msg_no_files : pystr := py "No files found or error during fetch.".
Definition msg_building : pystr :=
  10%N :: py "--- Building and Displaying File Tree ---".
Definition msg_no_roots : pystr := py "No top-level files or folders found.".

(** The part of [list_files] that prints a built forest. *)
Definition print_forest (fuel : nat) (tree_roots : list (pystr * nat)) : M unit :=
  sorted_roots <- sorted sort_key (values tree_roots) ;;
  match sorted_roots with
  | [] => print msg_no_roots
  | _ => for_each (fun file => _print_tree fuel file 0) sorted_roots
  end.

Definition list_files (fuel : nat) : M unit :=
  match files with
  | [] => print msg_no_files
  | _ =>
      print msg_building ;;;
      tree_roots <- _build_tree files ;;
      print_forest fuel tree_roots
  end.

End Listing.

(** A record without the key ['parents'], given the empty list for it. *)
Definition with_empty_parents (f : file) : file :=
  File (id f) (name f) (mimeType f) (Some []).

(** ** The batches of the examples *)

Definition folder (i n : string) (ps : list string) : file :=
  File (py i) (py n) folder_mime (Some (map py ps)).
Definition plain (i n : string) (ps : list string) : file :=
  File (py i) (py n) (py "text/plain") (Some (map py ps)).

Definition docs_batch : list file :=
  [ folder "1" "Docs" []; plain "2" "report.txt" ["1"]; folder "3" "Photos" [] ].

Definition docs_shuffled : list file :=
  [ folder "3" "Photos" []; folder "1" "Docs" []; plain "2" "report.txt" ["1"] ].

(** A folder fetched before the folder it is in, as the listing request
    orders them (folders first, by name), and the same batch with the
    outer folder first. *)
Definition child_first : list file :=
  [ folder "a" "Alpha" ["z"]; folder "z" "Zeta" [] ].

Definition parent_first : list file :=
  [ folder "z" "Zeta" []; folder "a" "Alpha" ["z"] ].

(** A file whose parent is a fetched record that is no folder, fetched
    after it. *)
Definition plain_parent_later : list file :=
  [ plain "x" "a.txt" ["y"]; plain "y" "b.txt" [] ].

(** A folder that lists itself as its parent, alone and with a file. *)
Definition self_folder : list file := [ folder "1" "loop" ["1"] ].

Definition loop_batch : list file :=
  [ folder "1" "loop" ["1"]; plain "2" "a.txt" [] ].

(** A record with no key ['parents']. *)
Definition bare_batch : list file :=
  [ File (py "7") (py "shared.txt") (py "text/plain") None ].

(** Siblings out of order: a file, then two folders. *)
Definition mixed_batch : list file :=
  [ plain "1" "a" []; folder "2" "b" []; folder "3" "B" [] ].

(** ** What the specification says of the built tree *)

Section Spec.

Variable files : list file.

Definition is_folder_type (f : file) : bool :=
  bool_decide (mimeType f = folder_mime).

(** The position a parent identifier resolves to, when it is the
    identifier of a fetched Folder. *)
Definition resolves (parent_id : pystr) : option nat :=
  match file_map files !! parent_id with
  | Some p => if is_folder_type (record files p) then Some p else None
  | None => None
  end.

(** The first entry of a parent list that resolves to a fetched Folder. *)
Fixpoint first_folder (ps : list pystr) : option nat :=
  match ps with
  | [] => None
  | parent_id :: ps' =>
      match resolves parent_id with
      | Some p => Some p
      | None => first_folder ps'
      end
  end.

Definition parent_list (c : nat) : list pystr :=
  default [] (parents (record files c)).

Definition parent_of (c : nat) : option nat := first_folder (parent_list c).

(** The same in the words of the specification, with no dictionary:
    [p] is a fetched Folder, and its identifier is the first entry of the
    parent list of [c] that is the identifier of a fetched Folder. *)
Definition fetched_folder (parent_id : pystr) : Prop :=
  exists q fq, files !! q = Some fq /\ id fq = parent_id /\ is_folder_type fq = true.

Definition spec_parent (c p : nat) : Prop :=
  exists fc fp k,
    files !! c = Some fc /\ files !! p = Some fp /\
    is_folder_type fp = true /\
    default [] (parents fc) !! k = Some (id fp) /\
    forall j parent_id, j < k -> default [] (parents fc) !! j = Some parent_id ->
      ~ fetched_folder parent_id.

(** The children list of [p] and the top-level dictionary after the
    first [k] records, as the attachment rule gives them. *)
Definition kids (k p : nat) : list nat :=
  filter (fun c => parent_of c = Some p) (seq 0 k).

Definition roots (k : nat) : list (pystr * nat) :=
  (fun c => (id (record files c), c)) <$> filter (fun c => parent_of c = None) (seq 0 k).

(** The state after the first [k] rounds of the outer loop. *)
Record built (out : list pystr) (k : nat) (tree : list (pystr * nat)) (w : world)
  : Prop := Built {
  built_length : length (heap w) = length files;
  built_done : forall p, p < k ->
    heap w !! p = Some (Deco (Some (is_folder_type (record files p))) (Some (kids k p)));
  built_todo : forall p, k <= p -> p < length files -> heap w !! p = Some undecorated;
  built_tree : tree = roots k;
  built_order : forall c p, c < k -> parent_of c = Some p -> p <= c;
  built_stdout : stdout w = out
}.

(** *** The printed tree, as a function of the batch *)

(** The key [sorted] computes for a decorated object. *)
Definition skey (c : nat) : bool * pystr :=
  (negb (is_folder_type (record files c)), name (record files c)).

Definition order (l : list nat) : list nat :=
  (sort_keyed ((fun c => (skey c, c)) <$> l)).*2.

(** The objects [_print_tree] visits from [p] on, each with its level. *)
Fixpoint walk (fuel : nat) (p : nat) (level : nat) : list (nat * nat) :=
  match fuel with
  | O => []
  | S fuel' =>
      (p, level) ::
      (order (kids (length files) p) ≫= fun c => walk fuel' c (level + 1))
  end.

Definition top : list nat := values (roots (length files)).

Definition visits (fuel : nat) : list (nat * nat) :=
  order top ≫= fun r => walk fuel r 0.

Definition line_of (v : nat * nat) : pystr :=
  format_line files v.2 (is_folder_type (record files v.1)) v.1.

(** The lines of the forest, or the notice that there is none. *)
Definition forest_lines (fuel : nat) : list pystr :=
  match order top with
  | [] => [msg_no_roots]
  | _ => line_of <$> visits fuel
  end.

(** The objects of a walk, without their levels. *)
Definition nodes (fuel : nat) (p : nat) : list nat := (walk fuel p 0).*1.

(** [c] has no parent, or a parent before position [m]. *)
Definition hangs_below (m c : nat) : Prop :=
  match parent_of c with
  | None => True
  | Some p => p < m
  end.

Global Instance hangs_below_dec m c : Decision (hangs_below m c).
Proof. unfold hangs_below. destruct (parent_of c); apply _. Defined.

End Spec.

(** Where the objects of a batch are after a build: at the top level, or
    in the children list of an object. *)
Definition children_lists (w : world) : list nat :=
  heap w ≫= fun d => default [] (children d).

Definition placements (tree : list (pystr * nat)) (w : world) : list nat :=
  values tree ++ children_lists w.

(** [c] is in the children list of [p]. *)
Definition child_of (w : world) (c p : nat) : Prop :=
  exists l, children (obj w p) = Some l /\ c ∈ l.

(** The same by identifiers, which do not depend on the order of the
    batch: the record with identifier [cid] is in the children list of the
    record with identifier [pid]. *)
Definition attached_ids (files : list file) (w : world) (cid pid : pystr) : Prop :=
  exists c p fc fp,
    files !! c = Some fc /\ files !! p = Some fp /\
    id fc = cid /\ id fp = pid /\ child_of w c p.

Definition folder_id (files : list file) (parent_id : pystr) : Prop :=
  exists fq, fq ∈ files /\ id fq = parent_id /\ is_folder_type fq = true.

(** [pid] is the first entry of the parent list of [fc] that is the
    identifier of a fetched Folder. *)
Definition first_parent_id (files : list file) (fc : file) (pid : pystr) : Prop :=
  exists k,
    default [] (parents fc) !! k = Some pid /\ folder_id files pid /\
    forall j parent_id, j < k -> default [] (parents fc) !! j = Some parent_id ->
      ~ folder_id files parent_id.

(** The order of siblings: a Folder before a regular file, and names
    ascending by code point within each kind. *)
Definition key_le (a b : bool * pystr) : Prop := ~ lexico b a.

Definition keyed_le {A} (x y : (bool * pystr) * A) : Prop := key_le x.1 y.1.

(** The key of an object as the heap has it. *)
Definition heap_key (files : list file) (w : world) (c : nat) : bool * pystr :=
  (negb (truthy_bool (is_folder (obj w c))), name (record files c)).

(** [x] may stand before [y] among siblings: [x] is a Folder and [y] is
    not, or they are of one kind and the name of [y] is not below the name
    of [x] in the code-point order. *)
Definition folder_flag (w : world) (x : nat) : bool :=
  truthy_bool (is_folder (obj w x)).

Definition sibling_le (files : list file) (w : world) (x y : nat) : Prop :=
  (folder_flag w x = true /\ folder_flag w y = false) \/
  (folder_flag w x = folder_flag w y /\
   ~ lexico (name (record files y)) (name (record files x))).

(** ** When the builder returns *)

Section Outcome.

Variable files : list file.

(** Whether the inner loop for the object at position [c] comes back.  It
    does not when it reaches the identifier of an object whose round of
    the outer loop is still to come, which has no key ['is_folder'] yet,
    before an entry that resolves to a Folder at [c] or before it. *)
Fixpoint scan_returns (c : nat) (ps : list pystr) : bool :=
  match ps with
  | [] => true
  | parent_id :: ps' =>
      match file_map files !! parent_id with
      | None => scan_returns c ps'
      | Some p =>
          if decide (p <= c)
          then if is_folder_type (record files p) then true else scan_returns c ps'
          else false
      end
  end.

Definition buildable : bool :=
  forallb (fun c => scan_returns c (parent_list files c)) (seq 0 (length files)).

(** The heap a completed build leaves. *)
Definition final_heap : list deco :=
  (fun p => Deco (Some (is_folder_type (record files p)))
              (Some (kids files (length files) p)))
  <$> seq 0 (length files).

(** The same in words: an entry of the parent list of [c] names a record
    fetched after [c], and every entry before it that names a fetched
    record names one at [c] or before it that is no Folder. *)
Definition reaches_later (c : nat) : Prop :=
  exists fc k p fp,
    files !! c = Some fc /\ default [] (parents fc) !! k = Some (id fp) /\
    files !! p = Some fp /\ c < p /\
    forall j q fq, j < k -> default [] (parents fc) !! j = Some (id fq) ->
      files !! q = Some fq -> q <= c /\ is_folder_type fq = false.

End Outcome.

(** ** The shape of a listing *)

(** A listing, as a list of objects with their levels, shows the forest:
    a line at level 0 is for a top-level object, and a line one level
    deeper is for an object in the children list of the object of the
    nearest line above it that is not as deep. *)
Definition nested (tree : list (pystr * nat)) (w : world) (vs : list (nat * nat)) : Prop :=
  forall pre c level post, vs = pre ++ (c, level) :: post ->
    match level with
    | O => c ∈ values tree
    | S l =>
        exists pre1 p mid,
          pre = pre1 ++ (p, l) :: mid /\ child_of w c p /\
          forall x, x ∈ mid -> l < x.2
    end.

(** ** The order of the lines of siblings *)





(** * The Drive service

    The methods of [DriveManager] that talk to the service.  A request is
    what [execute()] sends, with the arguments that vary; the service is
    any function from the requests sent so far and the request to a reply.
    A reply is the dictionary [execute()] returns, with the keys the code
    reads, or the exception it raises, with the text that [str(e)] gives.
    Every request sent is recorded, whether it succeeds or not. *)

Inductive request :=
  | files_list
  | files_search (q : pystr)
  | files_create (name mimeType : pystr)
  | files_get (fileId : pystr)
  | files_update (fileId addParents removeParents : pystr).

Record resource := Resource {
  res_files : option (list file);
  res_id : option pystr;
  res_name : option pystr;
  res_parents : option (list pystr)
}.

Inductive reply :=
  | Returned (r : resource)
  | Failed (e : pystr).

Definition drive : Type := list request -> request -> reply.

Record session := Session {
  state : world;
  sent : list request
}.

(** An exception that leaves a method: one raised by a request, one of
    the tree code, or the one of an index out of range. *)
Inductive raised :=
  | Error (e : pystr)
  | Key (e : exn)
  | IndexError.

Inductive result (A : Type) :=
  | Returns (a : A) (s : session)
  | Raises (e : raised) (requests : list request)
  | Exhausted.
Arguments Returns {A} a s.
Arguments Raises {A} e requests.
Arguments Exhausted {A}.

Definition Api (A : Type) : Type := session -> result A.

Definition api_ret {A} (a : A) : Api A := fun s => Returns a s.

Definition api_bind {A B} (c : Api A) (k : A -> Api B) : Api B := fun s =>
  match c s with
  | Returns a s' => k a s'
  | Raises e requests => Raises e requests
  | Exhausted => Exhausted
  end.

Definition raise {A} (e : raised) : Api A := fun s => Raises e (sent s).

(** The tree code, run in a session: it sends nothing. *)
Definition lift {A} (c : M A) : Api A := fun s =>
  match c (state s) with
  | Done (a, w) => Returns a (Session w (sent s))
  | Raised e => Raises (Key e) (sent s)
  | OutOfFuel => Exhausted
  end.

(** [return files] in [_fetch_all_files]: from here on the heap is that of
    the records returned, which are new objects and carry none of the keys
    the builder adds. *)
Definition receive (files : list file) : Api (list file) := fun s =>
  Returns files (Session (World (heap (fetched files)) (stdout (state s))) (sent s)).

Declare Scope api_scope.
Delimit Scope api_scope with api.
Notation "x <- c ;; k" := (api_bind c (fun x => k))
  (at level 100, c at next level, right associativity) : api_scope.
Notation "c ;;; k" := (api_bind c (fun _ => k))
  (at level 100, right associativity) : api_scope.

(** [sep.join(l)] *)
Fixpoint join (sep : pystr) (l : list pystr) : pystr :=
  match l with
  | [] => []
  | [x] => x
  | x :: l' => x ++ sep ++ join sep l'
  end.

(** [f"{x}"] for what [.get] returns. *)
Definition str_of (o : option pystr) : pystr := default (py "None") o.

Definition TARGET_FOLDER_NAME : pystr := py "CLI_Sorted_Archive".

Definition msg_fetching : pystr :=
  10%N :: py "--- Fetching file list (up to 1000 items) ---".
Definition msg_fetch_error (e : pystr) : pystr := py "Error fetching files: " ++ e.
Definition msg_sorting : pystr := 10%N :: py "--- Initiating Sorting Demo ---".
Definition msg_no_candidate : pystr :=
  [10%N; 9888%N; 65039%N]
    ++ py " No suitable file found to demonstrate sorting. Please upload a file first.".
Definition msg_selected (n : pystr) : pystr := py "Selected file: '" ++ n ++ py "'".
Definition msg_in_target : pystr :=
  [8505%N; 65039%N] ++ py " File is already in the target folder ("
    ++ TARGET_FOLDER_NAME ++ py "). Skipping move.".
Definition msg_moving (file_name : option pystr) (new_parent_id : pystr) : pystr :=
  [128260%N] ++ py " Moving '" ++ str_of file_name ++ py "' to folder ID: "
    ++ new_parent_id ++ py "...".
Definition msg_moved (new_parent_id : pystr) : pystr :=
  [9989%N] ++ py " Move successful! New Parent: " ++ new_parent_id.
Definition msg_move_error (e : pystr) : pystr :=
  [10060%N] ++ py " An error occurred while moving the file: " ++ e.

(** The text of the exceptions Python itself raises in [_move_file]:
    for [self.service.files()] without a service, and for [",".join(None)]. *)
Definition no_service_text : pystr := py "'NoneType' object has no attribute 'files'".
Definition join_None_text : pystr := py "can only join an iterable".

(** The query of [find_or_create_folder]. *)
Definition folder_query (folder_name : pystr) : pystr :=
  py "name='" ++ folder_name
    ++ py "' and mimeType='application/vnd.google-apps.folder' and 'root' in parents and trashed=false".

(** The loop of [sort_demo] that picks [file_to_move]: the first item that
    is no folder and has a parent. *)
Fixpoint file_to_move (all_files : list file) : option file :=
  match all_files with
  | [] => None
  | item :: rest =>
      if bool_decide (mimeType item <> folder_mime) && truthy_list (parents item)
      then Some item
      else file_to_move rest
  end.

Section Manager.

Local Open Scope api_scope.

(** [self.service]: [None] when authentication failed. *)
Variable service : option drive.

(** [self.service.files(). ... .execute()]: the reply is a value here, a
    [try] block takes it apart.  Without a service the expression raises
    before anything is sent. *)
Definition execute (r : request) : Api reply := fun s =>
  match service with
  | Some d => Returns (d (sent s) r) (Session (state s) (sent s ++ [r]))
  | None => Returns (Failed no_service_text) s
  end.

Definition say (line : pystr) : Api unit := lift (print line).

Definition _fetch_all_files : Api (list file) :=
  if service is None then receive [] else
  say msg_fetching ;;;
  r <- execute files_list ;;
  match r with
  | Returned results => receive (default [] (res_files results))
  | Failed e => say (msg_fetch_error e) ;;; receive []
  end.

(** [list_files], from the fetch on. *)
Definition DriveManager_list_files (fuel : nat) : Api unit :=
  files <- _fetch_all_files ;;
  lift (list_files files fuel).

(** No [try] here: a request that fails raises out of the method. *)
Definition find_or_create_folder (folder_name : pystr) : Api (option pystr) :=
  if service is None then api_ret None else
  r <- execute (files_search (folder_query folder_name)) ;;
  match r with
  | Failed e => raise (Error e)
  | Returned results =>
      match default [] (res_files results) with
      | f :: _ => api_ret (Some (id f))
      | [] =>
          r' <- execute (files_create folder_name folder_mime) ;;
          match r' with
          | Failed e => raise (Error e)
          | Returned folder => api_ret (res_id folder)
          end
      end
  end.

(** The whole body is a [try]: whatever fails is printed. *)
Definition _move_file (file_id current_parent_id new_parent_id : pystr) : Api unit :=
  r <- execute (files_get file_id) ;;
  match r with
  | Failed e => say (msg_move_error e)
  | Returned file =>
      match res_parents file with
      | None => say (msg_move_error join_None_text)
      | Some ps =>
          let previous_parents := join (py ",") ps in
          let file_name := res_name file in
          say (msg_moving file_name new_parent_id) ;;;
          r' <- execute (files_update file_id new_parent_id previous_parents) ;;
          match r' with
          | Failed e => say (msg_move_error e)
          | Returned moved_file => say (msg_moved new_parent_id)
          end
      end
  end.

Definition sort_demo : Api unit :=
  if service is None then api_ret tt else
  say msg_sorting ;;;
  all_files <- _fetch_all_files ;;
  match file_to_move all_files with
  | None => say msg_no_candidate
  | Some f =>
      let FILE_ID_TO_MOVE := id f in
      CURRENT_PARENT_ID <-
        match parents f with
        | None => raise (Key (KeyError "parents"))
        | Some [] => raise IndexError
        | Some (parent_id :: _) => api_ret parent_id
        end ;;
      say (msg_selected (name f)) ;;;
      target_folder_id <- find_or_create_folder TARGET_FOLDER_NAME ;;
      match target_folder_id with
      | Some (c :: t) =>
          if bool_decide (CURRENT_PARENT_ID <> c :: t)
          then _move_file FILE_ID_TO_MOVE CURRENT_PARENT_ID (c :: t)
          else say msg_in_target
      | _ => api_ret tt
      end
  end.

End Manager.

(** ** What [sort_demo] looks for *)

(** A record [sort_demo] may move: no folder, with a first parent. *)
Definition movable (f : file) : Prop :=
  mimeType f <> folder_mime /\ exists cur ps, parents f = Some (cur :: ps).

(** The record [sort_demo] picks: the first of the batch it may move. *)
Definition first_movable (batch : list file) (f : file) : Prop :=
  exists before after,
    batch = before ++ f :: after /\ movable f /\ forall g, g ∈ before -> ~ movable g.

(** The batch a session receives for its next listing request. *)
Definition next_batch (service : option drive) (s : session) : list file :=
  match service with
  | Some d =>
      match d (sent s) files_list with
      | Returned results => default [] (res_files results)
      | Failed _ => []
      end
  | None => []
  end.

(** What the fetch of a session prints and sends. *)
Definition fetch_lines (service : option drive) (s : session) : list pystr :=
  match service with
  | Some d =>
      msg_fetching ::
      match d (sent s) files_list with
      | Returned _ => []
      | Failed e => [msg_fetch_error e]
      end
  | None => []
  end.

Definition fetch_requests (service : option drive) : list request :=
  match service with
  | Some _ => [files_list]
  | None => []
  end.

(** What [list_files] prints once the batch is there. *)
Definition listing (files : list file) (fuel : nat) : list pystr :=
  match files with
  | [] => [msg_no_files]
  | _ => msg_building :: forest_lines files fuel
  end.

Definition is_update (r : request) : bool :=
  match r with
  | files_update _ _ _ => true
  | _ => false
  end.

(** A method has ended, returning or raising, with [requests] sent. *)
Definition ended {A} (r : result A) (requests : list request) : Prop :=
  (exists a s', r = Returns a s' /\ sent s' = requests) \/
  (exists e, r = Raises e requests).

(** ** Drives for the examples *)

Definition replying (fs : option (list file)) (i n : option pystr)
    (ps : option (list pystr)) : reply :=
  Returned (Resource fs i n ps).

(** One text file in a folder, and no archive folder yet: it is created
    on request. *)
Definition small_drive : drive := fun _ r =>
  match r with
  | files_list =>
      replying (Some [folder "p1" "Stuff" []; plain "f1" "note.txt" ["p1"]])
        None None None
  | files_search _ => replying (Some []) None None None
  | files_create _ _ => replying None (Some (py "a1")) None None
  | files_get _ => replying None None (Some (py "note.txt")) (Some [py "p1"])
  | files_update _ _ _ => replying None None None None
  end.

(** The batch of [child_first], as a drive lists it. *)
Definition nested_drive : drive := fun _ r =>
  match r with
  | files_list => replying (Some child_first) None None None
  | _ => Failed (py "not found")
  end.

(** One text file, on a drive that answers nothing but the listing. *)
Definition listing_only_drive : drive := fun _ r =>
  match r with
  | files_list => replying (Some [plain "f1" "note.txt" ["p1"]]) None None None
  | _ => Failed (py "not found")
  end.

(** The batch of [docs_batch], as a drive lists it. *)
Definition docs_drive : drive := fun _ r =>
  match r with
  | files_list => replying (Some docs_batch) None None None
  | _ => Failed (py "not found")
  end.

(** * Properties *)

(** ** The dictionary of identifiers *)

Lemma file_map_from_cons i f l m :
  file_map_from i (f :: l) m = file_map_from (S i) l (<[id f := i]> m).
Proof. reflexivity. Qed.

Lemma file_map_from_absent l : forall i m k,
  (forall f, f ∈ l -> id f <> k) ->
  file_map_from i l m !! k = m !! k.
Proof.
  induction l as [|f l IH]; intros i m k Hk; [done|].
  rewrite file_map_from_cons, IH.
  - apply lookup_insert_ne. apply Hk. left.
  - intros g Hg. apply Hk. by right.
Qed.

Lemma file_map_from_present l : forall i m k,
  is_Some (m !! k) -> is_Some (file_map_from i l m !! k).
Proof.
  induction l as [|f l IH]; intros i m k Hk; [done|].
  rewrite file_map_from_cons. apply IH.
  destruct (decide (id f = k)) as [Heq|Hne].
  - subst k. rewrite lookup_insert_eq. eauto.
  - by rewrite lookup_insert_ne.
Qed.

Lemma file_map_from_member l : forall i m f,
  f ∈ l -> is_Some (file_map_from i l m !! id f).
Proof.
  induction l as [|g l IH]; intros i m f Hf; [by apply elem_of_nil in Hf|].
  rewrite file_map_from_cons.
  apply elem_of_cons in Hf as [->|Hf]; [|by apply IH].
  apply file_map_from_present. rewrite lookup_insert_eq. eauto.
Qed.

Lemma file_map_from_Some l : forall i m k v,
  file_map_from i l m !! k = Some v ->
  m !! k = Some v \/ exists j f, l !! j = Some f /\ id f = k /\ v = i + j.
Proof.
  induction l as [|f l IH]; intros i m k v Hv; [by left|].
  rewrite file_map_from_cons in Hv. apply IH in Hv as [Hv|(j & g & Hj & Hg & ->)].
  - destruct (decide (id f = k)) as [Heq|Hne].
    + subst k. rewrite lookup_insert_eq in Hv. injection Hv as <-.
      right. exists 0, f. split_and!; [done|done|lia].
    + rewrite lookup_insert_ne in Hv by done. by left.
  - right. exists (S j), g. split_and!; [done|done|lia].
Qed.

Lemma file_map_from_NoDup l : forall i m j f,
  NoDup (id <$> l) -> l !! j = Some f ->
  file_map_from i l m !! id f = Some (i + j).
Proof.
  induction l as [|g l IH]; intros i m j f Hnd Hj; [done|].
  rewrite fmap_cons in Hnd. apply NoDup_cons in Hnd as [Hg Hnd].
  rewrite file_map_from_cons. destruct j as [|j]; simpl in Hj.
  - simplify_eq. rewrite file_map_from_absent.
    + rewrite lookup_insert_eq. f_equal. lia.
    + intros h Hh Heq. apply Hg. rewrite <- Heq. apply list_elem_of_fmap. eauto.
  - rewrite (IH (S i) _ j f Hnd Hj). f_equal. lia.
Qed.

Lemma file_map_Some files k p :
  file_map files !! k = Some p -> exists f, files !! p = Some f /\ id f = k.
Proof.
  intros H. apply file_map_from_Some in H as [H|(j & f & Hj & Hf & ->)].
  - by rewrite lookup_empty in H.
  - exists f. by split.
Qed.

Lemma file_map_None files k f :
  file_map files !! k = None -> f ∈ files -> id f <> k.
Proof.
  intros Hk Hf <-. apply (file_map_from_member _ 0 ∅) in Hf as [v Hv].
  unfold file_map in Hk. congruence.
Qed.

Lemma file_map_NoDup files p f :
  NoDup (id <$> files) -> files !! p = Some f -> file_map files !! id f = Some p.
Proof. intros Hnd Hp. apply (file_map_from_NoDup files 0 ∅ p f Hnd Hp). Qed.

(** ** The outer loop of [_build_tree] *)

Ltac run_in H :=
  unfold bind, ret, append_child, getitem_is_folder, getitem_children,
    get_is_folder, get_children, set_is_folder, set_children, print in H;
  cbv beta iota in H.

Lemma dict_set_fresh t k v : k ∉ t.*1 -> dict_set t k v = t ++ [(k, v)].
Proof.
  induction t as [|[k' v'] t IH]; intros Hk; [done|].
  simpl in *. apply not_elem_of_cons in Hk as [Hne Hk].
  destruct (decide (k = k')); [done|]. by rewrite IH.
Qed.

Section Build.

Variable files : list file.

Lemma record_lookup p f : files !! p = Some f -> record files p = f.
Proof. apply list_lookup_total_correct. Qed.

Lemma kids_S k p :
  kids files (S k) p =
  kids files k p ++ (if decide (parent_of files k = Some p) then [k] else []).
Proof.
  unfold kids. rewrite seq_S, filter_app. simpl.
  by rewrite (filter_singleton (fun c => parent_of files c = Some p) k []).
Qed.

Lemma roots_S k :
  roots files (S k) =
  roots files k ++
    (if decide (parent_of files k = None) then [(id (record files k), k)] else []).
Proof.
  unfold roots. rewrite seq_S, filter_app, fmap_app. simpl.
  rewrite (filter_singleton (fun c => parent_of files c = None) k []).
  by destruct (decide _).
Qed.

Lemma kids_above k p :
  (forall c q, c < k -> parent_of files c = Some q -> q <= c) ->
  k <= p -> kids files k p = [].
Proof.
  intros Hord Hp. unfold kids.
  destruct (filter _ _) as [|c l] eqn:E; [done|].
  assert (Hc : c ∈ filter (fun c => parent_of files c = Some p) (seq 0 k))
    by (rewrite E; left).
  apply list_elem_of_filter in Hc as [Hpar Hc]. apply elem_of_seq in Hc.
  specialize (Hord c p ltac:(lia) Hpar). lia.
Qed.

(** The inner loop finds the first entry that resolves to a Folder, when
    no entry before it is the identifier of an object that has no
    ['is_folder'] yet. *)
Lemma attach_spec k ps : forall w b w',
  (forall p, p <= k -> exists l,
     heap w !! p = Some (Deco (Some (is_folder_type (record files p))) (Some l))) ->
  (forall p, k < p -> p < length files -> heap w !! p = Some undecorated) ->
  attach (file_map files) k ps w = Done (b, w') ->
  match first_folder files ps with
  | Some p =>
      b = true /\ p <= k /\ is_folder_type (record files p) = true /\
      exists l, heap w !! p = Some (Deco (Some true) (Some l)) /\
        w' = World (alter (fun d => Deco (is_folder d) (Some (l ++ [k]))) p (heap w))
               (stdout w)
  | None => b = false /\ w' = w
  end.
Proof.
  induction ps as [|parent_id ps IH]; intros w b w' Hdec Hundec H; simpl in *.
  { run_in H. by simplify_eq. }
  unfold resolves. destruct (file_map files !! parent_id) as [p|] eqn:E; [|by apply IH].
  apply file_map_Some in E as (f & Hf & _). apply lookup_lt_Some in Hf.
  run_in H. destruct (decide (p <= k)) as [Hle|Hgt].
  - destruct (Hdec p Hle) as [l Hl]. unfold obj in H. rewrite Hl in H. simpl in H.
    destruct (is_folder_type (record files p)) eqn:Ef; [|by apply IH].
    run_in H. unfold obj in H. rewrite Hl in H. cbn [children] in H.
    injection H as <- <-. split_and!; [done|done|done|]. by exists l.
  - unfold obj in H. rewrite (Hundec p) in H by lia. discriminate.
Qed.

Hypothesis unique_ids : NoDup (id <$> files).

Lemma roots_fresh k f : files !! k = Some f -> id f ∉ (roots files k).*1.
Proof.
  intros Hk Hin. apply list_elem_of_fmap in Hin as ([i c] & Hi & Hin). simpl in Hi.
  apply list_elem_of_fmap in Hin as (c' & Hc' & Hin).
  injection Hc' as -> ->.
  apply list_elem_of_filter in Hin as [_ Hin]. apply elem_of_seq in Hin.
  destruct (lookup_lt_is_Some_2 files c') as [fc Hc].
  { apply lookup_lt_Some in Hk. lia. }
  rewrite (record_lookup _ _ Hc) in Hi.
  assert (c' = k); [|lia].
  eapply (NoDup_lookup _ _ _ _ unique_ids); rewrite list_lookup_fmap.
  - by rewrite Hc.
  - rewrite Hk. simpl. by rewrite Hi.
Qed.

Lemma build_step_built out k f tree w tree' w' :
  files !! k = Some f ->
  built files out k tree w ->
  build_step (file_map files) tree k f w = Done (tree', w') ->
  built files out (S k) tree' w'.
Proof.
  intros Hk [Hlen Hdone Htodo Htree Hord Hout] H.
  pose proof (lookup_lt_Some _ _ _ Hk) as Hkn.
  unfold build_step in H. unfold bind at 1 2 in H.
  unfold set_children at 1, set_is_folder at 1 in H. cbn [heap stdout] in H.
  set (h1 := alter _ k (alter _ k (heap w))) in H.
  assert (Hh1 : forall p, p <= k ->
    h1 !! p = Some (Deco (Some (is_folder_type (record files p))) (Some (kids files k p)))).
  { intros p Hp. unfold h1. destruct (decide (p = k)) as [->|Hne].
    - rewrite !list_lookup_alter_eq, (Htodo k) by lia. simpl.
      by rewrite (record_lookup _ _ Hk), (kids_above k k Hord).
    - rewrite !list_lookup_alter_ne by done. apply Hdone. lia. }
  assert (Hh1' : forall p, k < p -> p < length files -> h1 !! p = Some undecorated).
  { intros p Hp Hpn. unfold h1. rewrite !list_lookup_alter_ne by lia. apply Htodo; lia. }
  assert (Hlen1 : length h1 = length files) by (unfold h1; by rewrite !length_alter).
  unfold bind in H.
  destruct (attach _ _ _ _) as [[b w1]| |] eqn:Ha; [|done|done].
  apply attach_spec in Ha; cbn [heap stdout]; [|by eauto|done].
  fold (parent_list files k) in Ha. rewrite <- (record_lookup _ _ Hk) in Ha.
  fold (parent_list files k) in Ha. fold (parent_of files k) in Ha.
  destruct (parent_of files k) as [p|] eqn:Epar.
  - destruct Ha as (-> & Hp & Hisf & l & Hl & ->). cbn [heap stdout] in *.
    unfold ret in H. simplify_eq.
    rewrite (Hh1 p Hp) in Hl. simplify_eq.
    split; cbn [heap stdout]; try done.
    + by rewrite length_alter.
    + intros q Hq. rewrite kids_S, Epar. destruct (decide (p = q)) as [->|Hne].
      * rewrite list_lookup_alter_eq, Hh1 by lia. simpl.
        rewrite decide_True by done. by rewrite Hisf.
      * rewrite list_lookup_alter_ne, Hh1 by (done || lia).
        rewrite decide_False by congruence. by rewrite app_nil_r.
    + intros q Hq Hqn. rewrite list_lookup_alter_ne by lia. apply Hh1'; lia.
    + rewrite roots_S, Epar. by rewrite decide_False, app_nil_r.
    + intros c q Hc Hcq. destruct (decide (c = k)) as [->|Hne].
      * congruence.
      * apply Hord; [lia|done].
  - destruct Ha as (-> & ->). unfold ret in H. simplify_eq.
    split; cbn [heap stdout]; try done.
    + intros q Hq. rewrite kids_S, Epar, decide_False, app_nil_r by done.
      apply Hh1. lia.
    + rewrite roots_S, Epar, decide_True by done.
      rewrite (record_lookup _ _ Hk). apply dict_set_fresh. by apply roots_fresh.
    + intros c q Hc Hcq. destruct (decide (c = k)) as [->|Hne].
      * congruence.
      * apply Hord; [lia|done].
Qed.

Lemma build_loop_built out l : forall pre tree w tree' w',
  files = pre ++ l ->
  built files out (length pre) tree w ->
  build_loop (file_map files) tree (length pre) l w = Done (tree', w') ->
  built files out (length files) tree' w'.
Proof.
  induction l as [|f l IH]; intros pre tree w tree' w' Hfiles Hb H; simpl in H.
  - unfold ret in H. injection H as <- <-.
    replace (length files) with (length pre); [done|].
    by rewrite Hfiles, app_nil_r.
  - unfold bind in H.
    destruct (build_step _ _ _ _ _) as [[tree1 w1]| |] eqn:Hs; [|done|done].
    apply build_step_built with (out := out) in Hs; [|by rewrite Hfiles, list_lookup_middle|done].
    apply (IH (pre ++ [f]) tree1 w1).
    + by rewrite <- app_assoc.
    + by rewrite length_app, Nat.add_1_r.
    + by rewrite length_app, Nat.add_1_r.
Qed.

(** A completed build leaves exactly the tree of the attachment rule. *)
Lemma build_tree_built out tree w :
  _build_tree files (World (replicate (length files) undecorated) out) = Done (tree, w) ->
  built files out (length files) tree w.
Proof.
  intros H. eapply (build_loop_built out files [] [] _ tree w eq_refl); [|exact H].
  split; cbn [heap stdout]; try done.
  - apply length_replicate.
  - intros p Hp. simpl in Hp. lia.
  - intros p _ Hp. by apply lookup_replicate_2.
  - intros c p Hc. simpl in Hc. lia.
Qed.

End Build.

(** ** [sorted] *)

Lemma key_ltb_lexico a b : key_ltb a b = true <-> lexico a b.
Proof.
  unfold key_ltb. destruct (trichotomyT lexico a b) as [[Hlt|Heq]|Hgt].
  - done.
  - subst b. split; [done|]. intros H. destruct (irreflexivity lexico a H).
  - split; [done|]. intros H. destruct (irreflexivity lexico a). by trans b.
Qed.

Lemma key_le_trans a b c : key_le a b -> key_le b c -> key_le a c.
Proof.
  unfold key_le. intros Hab Hbc Hca.
  destruct (trichotomyT lexico a b) as [[Hlt|Heq]|Hgt].
  - apply Hbc. by trans a.
  - subst b. done.
  - done.
Qed.

Lemma key_le_total a b : key_le a b \/ key_le b a.
Proof.
  unfold key_le. destruct (trichotomyT lexico a b) as [[Hlt|Heq]|Hgt].
  - left. intros H. destruct (irreflexivity lexico a). by trans b.
  - subst b. left. apply (irreflexivity lexico a).
  - right. intros H. destruct (irreflexivity lexico a). by trans b.
Qed.

Section Sorting.

Context {A : Type}.
Implicit Types (x : (bool * pystr) * A) (l : list ((bool * pystr) * A)).

Lemma insert_keyed_Permutation x l : insert_keyed x l ≡ₚ x :: l.
Proof.
  induction l as [|y l IH]; simpl; [done|].
  destruct (key_ltb y.1 x.1); [|done].
  rewrite IH. apply Permutation_swap.
Qed.

Lemma sort_keyed_Permutation l : sort_keyed l ≡ₚ l.
Proof.
  induction l as [|x l IH]; simpl; [done|].
  by rewrite insert_keyed_Permutation, IH.
Qed.

Lemma insert_keyed_sorted x l :
  StronglySorted keyed_le l -> StronglySorted keyed_le (insert_keyed x l).
Proof.
  induction 1 as [|y l Hl IH Hy]; simpl.
  { repeat constructor. }
  destruct (key_ltb y.1 x.1) eqn:E.
  - apply key_ltb_lexico in E. constructor; [done|].
    rewrite insert_keyed_Permutation. constructor; [|done].
    intros H. destruct (irreflexivity lexico (y.1)). by trans (x.1).
  - assert (Hxy : keyed_le x y).
    { intros H. apply key_ltb_lexico in H. congruence. }
    constructor; [by constructor|]. constructor; [done|].
    eapply Forall_impl; [exact Hy|]. intros z Hz. by eapply key_le_trans.
Qed.

Lemma sort_keyed_sorted l : StronglySorted keyed_le (sort_keyed l).
Proof.
  induction l as [|x l IH]; simpl; [constructor|]. by apply insert_keyed_sorted.
Qed.

(** Elements of one key keep the order they came in. *)
Lemma insert_keyed_stable k x l :
  filter (fun y => y.1 = k) (insert_keyed x l) = filter (fun y => y.1 = k) (x :: l).
Proof.
  induction l as [|y l IH]; simpl; [done|].
  destruct (key_ltb y.1 x.1) eqn:E; [|done].
  apply key_ltb_lexico in E.
  assert (Hne : y.1 <> x.1).
  { intros Heq. rewrite Heq in E. by destruct (irreflexivity lexico (x.1)). }
  rewrite (filter_cons _ y), IH, !(filter_cons _ x), (filter_cons _ y).
  destruct (decide (x.1 = k)), (decide (y.1 = k)); congruence.
Qed.

Lemma sort_keyed_stable k l :
  filter (fun y => y.1 = k) (sort_keyed l) = filter (fun y => y.1 = k) l.
Proof.
  induction l as [|x l IH]; simpl; [done|].
  by rewrite insert_keyed_stable, !filter_cons, IH.
Qed.

End Sorting.

Lemma zip_keys {K} (f : nat -> K) (l : list nat) :
  zip (f <$> l) l = (fun c => (f c, c)) <$> l.
Proof. induction l as [|c l IH]; csimpl; [done|]. by rewrite IH. Qed.

Lemma keyed_values {K} (f : nat -> K) (l : list nat) :
  ((fun c => (f c, c)) <$> l).*2 = l.
Proof. induction l as [|c l IH]; csimpl; [done|]. by rewrite IH. Qed.

Section Sorted.

Variable files : list file.

Lemma order_Permutation l : order files l ≡ₚ l.
Proof.
  unfold order. rewrite sort_keyed_Permutation. by rewrite keyed_values.
Qed.

Lemma order_nil : order files [] = [].
Proof. reflexivity. Qed.

(** The keys of [sorted] are read off the heap, which stays as it is. *)
Lemma map_m_sort_key_done l : forall w ks w',
  map_m (sort_key files) l w = Done (ks, w') ->
  w' = w /\ ks = heap_key files w <$> l.
Proof.
  induction l as [|c l IH]; intros w ks w' H; simpl in H.
  { unfold ret in H. by injection H as <- <-. }
  unfold bind at 1 in H. unfold sort_key at 1 in H. unfold bind at 1 in H.
  unfold getitem_is_folder in H.
  destruct (is_folder (obj w c)) as [b|] eqn:Eb; [|done].
  unfold ret at 1 in H. unfold bind in H.
  destruct (map_m _ _ _) as [[ks' w1]| |] eqn:Em; [|done|done].
  apply IH in Em as [-> ->]. unfold ret in H. injection H as <- <-.
  split; [done|]. rewrite fmap_cons. f_equal. unfold heap_key. by rewrite Eb.
Qed.

Lemma sorted_done l w l' w' :
  sorted (sort_key files) l w = Done (l', w') ->
  w' = w /\ l' = (sort_keyed ((fun c => (heap_key files w c, c)) <$> l)).*2.
Proof.
  unfold sorted, bind. intros H.
  destruct (map_m _ _ _) as [[ks w1]| |] eqn:Em; [|done|done].
  apply map_m_sort_key_done in Em as [-> ->]. unfold ret in H.
  injection H as <- <-. by rewrite zip_keys.
Qed.

Lemma map_m_sort_key_built w l :
  (forall c, c ∈ l -> is_folder (obj w c) = Some (is_folder_type (record files c))) ->
  map_m (sort_key files) l w = Done (skey files <$> l, w).
Proof.
  induction l as [|c l IH]; intros Hl; simpl; [done|].
  unfold bind at 1. unfold sort_key at 1. unfold bind at 1.
  unfold getitem_is_folder. rewrite (Hl c) by left.
  unfold ret at 1. unfold bind. rewrite IH; [done|].
  intros c' Hc'. apply Hl. by right.
Qed.

Lemma sorted_built w l :
  (forall c, c ∈ l -> is_folder (obj w c) = Some (is_folder_type (record files c))) ->
  sorted (sort_key files) l w = Done (order files l, w).
Proof.
  intros Hl. unfold sorted, bind. rewrite map_m_sort_key_built by done.
  unfold ret, order. by rewrite zip_keys.
Qed.

Lemma first_folder_Some ps p :
  first_folder files ps = Some p ->
  p < length files /\ is_folder_type (record files p) = true.
Proof.
  induction ps as [|parent_id ps IH]; simpl; [done|].
  unfold resolves. destruct (file_map files !! parent_id) as [q|] eqn:E; [|done].
  destruct (is_folder_type (record files q)) eqn:Ef; [|done].
  intros [= ->]. split; [|done].
  apply file_map_Some in E as (f & Hf & _). by apply lookup_lt_Some in Hf.
Qed.

Lemma kids_elem n c p : c ∈ kids files n p <-> parent_of files c = Some p /\ c < n.
Proof.
  unfold kids. rewrite list_elem_of_filter, elem_of_seq. intuition lia.
Qed.

Lemma kids_not_folder n p :
  is_folder_type (record files p) = false -> kids files n p = [].
Proof.
  intros Hp. destruct (kids files n p) as [|c l] eqn:E; [done|].
  assert (Hc : c ∈ kids files n p) by (rewrite E; left).
  apply kids_elem in Hc as [Hc _]. apply first_folder_Some in Hc as [_ Hc]. congruence.
Qed.

End Sorted.

(** ** [_print_tree] on a built heap *)

Lemma for_each_lines (line : nat * nat -> pystr) (h : list deco) (body : nat -> M unit)
    (vis : nat -> list (nat * nat)) (l : list nat) :
  (forall c w, c ∈ l -> heap w = h ->
     body c w = Done (tt, World h (stdout w ++ (line <$> vis c)))) ->
  forall w, heap w = h ->
    for_each body l w = Done (tt, World h (stdout w ++ (line <$> (l ≫= vis)))).
Proof.
  induction l as [|c l IH]; intros Hbody w Hw.
  - simpl. unfold ret. rewrite app_nil_r. by destruct w; simplify_eq/=.
  - cbn [for_each]. unfold bind. rewrite (Hbody c w) by (done || left).
    rewrite IH; [|intros; apply Hbody; by (done || right)|done].
    cbn [stdout]. by rewrite bind_cons, fmap_app, app_assoc.
Qed.

Section Printing.

Variable files : list file.
Variable h : list deco.

Hypothesis decorated : forall p, p < length files ->
  h !! p = Some (Deco (Some (is_folder_type (record files p)))
                      (Some (kids files (length files) p))).
Hypothesis earlier : forall c p,
  c < length files -> parent_of files c = Some p -> p <= c.

Lemma obj_decorated w p :
  heap w = h -> p < length files ->
  obj w p = Deco (Some (is_folder_type (record files p)))
                 (Some (kids files (length files) p)).
Proof. intros Hw Hp. unfold obj. by rewrite Hw, decorated. Qed.

Lemma decorated_is_folder w c :
  heap w = h -> c < length files ->
  is_folder (obj w c) = Some (is_folder_type (record files c)).
Proof. intros Hw Hc. by rewrite obj_decorated. Qed.

(** From an object that is not its own child, the printer comes back,
    having printed the lines of the walk. *)
Lemma print_tree_built : forall fuel p level w,
  heap w = h -> p < length files -> parent_of files p <> Some p ->
  length files <= fuel + p ->
  _print_tree files fuel p level w =
    Done (tt, World h (stdout w ++ (line_of files <$> walk files fuel p level))).
Proof.
  induction fuel as [|fuel IH]; intros p level w Hw Hp Hgood Hfuel; [lia|].
  cbn [_print_tree walk]. unfold bind at 1. unfold get_is_folder at 1.
  unfold bind at 1. unfold print at 1. unfold bind at 1. unfold get_children at 1.
  cbn [heap stdout]. rewrite !obj_decorated by done. cbn [is_folder children].
  assert (Hkids : forall c, c ∈ order files (kids files (length files) p) ->
    c < length files /\ parent_of files c <> Some c /\ length files <= fuel + c).
  { intros c Hc. rewrite order_Permutation in Hc. apply kids_elem in Hc as [Hc Hcn].
    pose proof (earlier c p Hcn Hc).
    assert (p <> c) by (intros ->; done).
    split_and!; [done|congruence|lia]. }
  rewrite Hw.
  change (truthy_bool (Some (is_folder_type (record files p))))
    with (is_folder_type (record files p)).
  change (format_line files level (is_folder_type (record files p)) p)
    with (line_of files (p, level)).
  destruct (is_folder_type (record files p)) eqn:Ef; cbn [andb].
  - destruct (kids files (length files) p) as [|c0 l0] eqn:Ek; cbn [truthy_list].
    + unfold ret. rewrite order_nil. by rewrite fmap_cons.
    + rewrite <- Ek in *. unfold bind at 1. unfold getitem_children.
      rewrite obj_decorated by done. cbn [children]. unfold bind.
      rewrite sorted_built.
      * rewrite (for_each_lines (line_of files) h _
          (fun c => walk files fuel c (level + 1))).
        -- cbn [stdout]. by rewrite fmap_cons, <- app_assoc.
        -- intros c w' Hc Hw'. apply Hkids in Hc as (? & ? & ?). by apply IH.
        -- done.
      * intros c Hc. apply kids_elem in Hc as [_ Hc].
        by apply decorated_is_folder.
  - rewrite kids_not_folder by done. unfold ret. rewrite order_nil.
    by rewrite fmap_cons.
Qed.

End Printing.

(** ** Every record is visited once *)

Lemma fmap_bind_list {A B C} (f : B -> C) (g : A -> list B) (l : list A) :
  f <$> (l ≫= g) = l ≫= fun x => f <$> g x.
Proof.
  induction l as [|x l IH]; [done|]. by rewrite !bind_cons, fmap_app, IH.
Qed.

Lemma filter_none {A} (P : A -> Prop) `{!forall x, Decision (P x)} (l : list A) :
  (forall x, x ∈ l -> ~ P x) -> filter P l = [].
Proof.
  induction l as [|x l IH]; intros Hl; [done|].
  rewrite filter_cons_False by (apply Hl; left).
  apply IH. intros y Hy. apply Hl. by right.
Qed.

Lemma filter_split {A} (P Q R : A -> Prop)
    `{!forall x, Decision (P x), !forall x, Decision (Q x), !forall x, Decision (R x)}
    (l : list A) :
  (forall x, x ∈ l -> (P x <-> Q x \/ R x) /\ ~ (Q x /\ R x)) ->
  filter P l ≡ₚ filter Q l ++ filter R l.
Proof.
  induction l as [|x l IH]; intros Hsplit; [done|].
  destruct (Hsplit x) as [Hx Hdis]; [left|].
  specialize (IH (fun y Hy => Hsplit y (list_elem_of_further _ _ _ Hy))).
  rewrite !filter_cons.
  destruct (decide (P x)), (decide (Q x)), (decide (R x)); try tauto;
    rewrite IH; [done|].
  by rewrite <- Permutation_middle.
Qed.

Section Counting.

Variable files : list file.

Hypothesis before : forall c p,
  c < length files -> parent_of files c = Some p -> p < c.

Lemma walk_level fuel : forall p l1 l2,
  (walk files fuel p l1).*1 = (walk files fuel p l2).*1.
Proof.
  induction fuel as [|fuel IH]; intros p l1 l2; [done|].
  cbn [walk]. rewrite !fmap_cons, !fmap_bind_list. f_equal.
  apply Forall_bind_ext, Forall_forall. intros c _. apply IH.
Qed.

Lemma nodes_S fuel p :
  nodes files (S fuel) p =
  p :: (order files (kids files (length files) p) ≫= nodes files fuel).
Proof.
  unfold nodes. cbn [walk]. rewrite fmap_cons, fmap_bind_list. f_equal.
  apply Forall_bind_ext, Forall_forall. intros c _. apply walk_level.
Qed.

Lemma nodes_fuel : forall f f' p,
  p < length files -> length files <= f + p -> length files <= f' + p ->
  nodes files f p = nodes files f' p.
Proof.
  induction f as [|f IH]; intros [|f'] p Hp Hf Hf'; try lia.
  rewrite !nodes_S. f_equal. apply Forall_bind_ext, Forall_forall.
  intros c Hc. rewrite order_Permutation in Hc. apply kids_elem in Hc as [Hc Hcn].
  pose proof (before c p Hcn Hc). apply IH; lia.
Qed.

Lemma kids_rest m :
  kids files (length files) m =
  filter (fun c => parent_of files c = Some m) (seq (S m) (length files - S m)).
Proof.
  unfold kids. destruct (decide (S m <= length files)) as [Hm|Hm].
  - replace (length files) with (S m + (length files - S m)) at 1 by lia.
    rewrite seq_app, filter_app.
    rewrite (filter_none _ (seq 0 (S m))); [done|].
    intros c Hc Hq. apply elem_of_seq in Hc.
    pose proof (before c m ltac:(lia) Hq). lia.
  - replace (length files - S m) with 0 by lia. simpl.
    apply filter_none. intros c Hc Hq. apply elem_of_seq in Hc.
    pose proof (before c m ltac:(lia) Hq). lia.
Qed.

Lemma cover k : forall m f,
  m + k = length files -> length files <= f + m ->
  filter (hangs_below files m) (seq m k) ≫= nodes files f ≡ₚ seq m k.
Proof.
  induction k as [|k IH]; intros m f Hm Hf; [done|].
  destruct f as [|f]; [lia|]. cbn [seq].
  rewrite filter_cons_True.
  2:{ unfold hangs_below. destruct (parent_of files m) as [p|] eqn:Ep; [|done].
      apply (before m p); [lia|done]. }
  rewrite bind_cons, nodes_S. cbn [app]. constructor.
  rewrite <- (IH (S m) f) at 2 by lia.
  rewrite order_Permutation, kids_rest.
  replace (length files - S m) with k by lia.
  rewrite (filter_split (hangs_below files (S m))
             (fun c => parent_of files c = Some m) (hangs_below files m)).
  - rewrite bind_app. f_equiv. apply reflexive_eq, Forall_bind_ext, Forall_forall.
    intros c Hc. apply list_elem_of_filter in Hc as [_ Hc]. apply elem_of_seq in Hc.
    apply nodes_fuel; lia.
  - intros c Hc. unfold hangs_below. destruct (parent_of files c) as [p|].
    + split; [|intros [[= ->] ?]; lia].
      split; [intros; destruct (decide (p = m)); [left; congruence|right; lia]|].
      intros [[= ->]|?]; lia.
    + split; [tauto|]. by intros [? _].
Qed.

Lemma top_filter :
  top files = filter (hangs_below files 0) (seq 0 (length files)).
Proof.
  unfold top, values, roots. rewrite keyed_values. apply list_filter_iff.
  intros c. unfold hangs_below. destruct (parent_of files c); [|done].
  split; [done|lia].
Qed.

(** The walks from the top-level objects visit each object once. *)
Lemma visits_Permutation fuel :
  length files <= fuel -> (visits files fuel).*1 ≡ₚ seq 0 (length files).
Proof.
  intros Hf. unfold visits. rewrite fmap_bind_list.
  change (fun r => (walk files fuel r 0).*1) with (nodes files fuel).
  rewrite order_Permutation, top_filter. apply cover; lia.
Qed.

End Counting.

(** ** The console is appended to, and the printer only reads the heap *)

Create HintDb py discriminated.

Lemma prepend_prepend {A} out s (r : outcome (A * world)) :
  prepend out (prepend s r) = prepend (out ++ s) r.
Proof. destruct r as [[a w]| |]; simpl; [|done|done]. by rewrite app_assoc. Qed.

Lemma appends_ret {A} (a : A) : appends (ret a).
Proof. intros h out. unfold ret. simpl. by rewrite app_nil_r. Qed.

Lemma appends_bind {A B} (c : M A) (k : A -> M B) :
  appends c -> (forall a, appends (k a)) -> appends (bind c k).
Proof.
  intros Hc Hk h out. unfold bind. rewrite (Hc h out).
  destruct (c (World h [])) as [[a [h1 s1]]| |]; simpl; [|done|done].
  by rewrite (Hk a h1 (out ++ s1)), (Hk a h1 s1), prepend_prepend.
Qed.

Lemma appends_getitem_is_folder p : appends (getitem_is_folder p).
Proof.
  intros h out. unfold getitem_is_folder, obj. simpl.
  destruct (is_folder _); simpl; [|done]. by rewrite app_nil_r.
Qed.

Lemma appends_getitem_children p : appends (getitem_children p).
Proof.
  intros h out. unfold getitem_children, obj. simpl.
  destruct (children _); simpl; [|done]. by rewrite app_nil_r.
Qed.

Lemma appends_get_is_folder p : appends (get_is_folder p).
Proof. intros h out. unfold get_is_folder, obj. simpl. by rewrite app_nil_r. Qed.

Lemma appends_get_children p : appends (get_children p).
Proof. intros h out. unfold get_children, obj. simpl. by rewrite app_nil_r. Qed.

Lemma appends_set_is_folder p b : appends (set_is_folder p b).
Proof. intros h out. unfold set_is_folder. simpl. by rewrite app_nil_r. Qed.

Lemma appends_set_children p l : appends (set_children p l).
Proof. intros h out. unfold set_children. simpl. by rewrite app_nil_r. Qed.

Lemma appends_print line : appends (print line).
Proof. intros h out. unfold print. simpl. done. Qed.

#[export] Hint Resolve appends_ret appends_bind appends_getitem_is_folder
  appends_getitem_children appends_get_is_folder appends_get_children
  appends_set_is_folder appends_set_children appends_print : py.

Lemma appends_append_child p c : appends (append_child p c).
Proof. unfold append_child. auto with py. Qed.

Lemma appends_for_each {A} (body : A -> M unit) l :
  (forall x, appends (body x)) -> appends (for_each body l).
Proof. intros Hb. induction l; simpl; auto with py. Qed.

Lemma appends_map_m {A B} (f : A -> M B) l :
  (forall x, appends (f x)) -> appends (map_m f l).
Proof. intros Hf. induction l; simpl; auto 6 with py. Qed.

#[export] Hint Resolve appends_append_child appends_for_each appends_map_m : py.

Lemma appends_attach fm i ps : appends (attach fm i ps).
Proof.
  induction ps as [|parent_id ps IH]; simpl; [auto with py|].
  destruct (fm !! parent_id); [|done].
  apply appends_bind; [auto with py|]. intros []; auto with py.
Qed.

Lemma appends_build_step fm tree i f : appends (build_step fm tree i f).
Proof.
  unfold build_step. do 2 (apply appends_bind; [by auto with py|]; intros ?).
  apply appends_bind; [apply appends_attach|]. intros []; auto with py.
Qed.

Lemma appends_build_loop fm l : forall tree i, appends (build_loop fm tree i l).
Proof.
  induction l as [|f l IH]; intros tree i; simpl; [auto with py|].
  apply appends_bind; [apply appends_build_step|]. intros tree'. apply IH.
Qed.

Lemma appends_build_tree files : appends (_build_tree files).
Proof. apply appends_build_loop. Qed.

Lemma appends_sort_key files x : appends (sort_key files x).
Proof. unfold sort_key. auto with py. Qed.

Lemma appends_sorted files l : appends (sorted (sort_key files) l).
Proof. unfold sorted. auto using appends_sort_key with py. Qed.

Lemma appends_print_tree files fuel : forall node level,
  appends (_print_tree files fuel node level).
Proof.
  induction fuel as [|fuel IH]; intros node level; [done|].
  cbn [_print_tree]. do 3 (apply appends_bind; [by auto with py|]; intros ?).
  destruct (_ && _); [|auto with py].
  apply appends_bind; [auto with py|]. intros l.
  apply appends_bind; [apply appends_sorted|]. intros l'.
  by apply appends_for_each.
Qed.

Lemma appends_print_forest files fuel tree : appends (print_forest files fuel tree).
Proof.
  unfold print_forest. apply appends_bind; [apply appends_sorted|].
  intros [|r l]; [auto with py|]. apply appends_for_each. intros x.
  apply appends_print_tree.
Qed.

Lemma reads_ret {A} (a : A) : reads (ret a).
Proof. intros w a' w' H. unfold ret in H. by injection H as _ <-. Qed.

Lemma reads_bind {A B} (c : M A) (k : A -> M B) :
  reads c -> (forall a, reads (k a)) -> reads (bind c k).
Proof.
  intros Hc Hk w b w' H. unfold bind in H.
  destruct (c w) as [[a w1]| |] eqn:E; [|done|done].
  rewrite (Hk a w1 b w' H). by apply (Hc w a).
Qed.

Lemma reads_getitem_is_folder p : reads (getitem_is_folder p).
Proof.
  intros w a w' H. unfold getitem_is_folder in H.
  destruct (is_folder _); [|done]. by injection H as _ <-.
Qed.

Lemma reads_getitem_children p : reads (getitem_children p).
Proof.
  intros w a w' H. unfold getitem_children in H.
  destruct (children _); [|done]. by injection H as _ <-.
Qed.

Lemma reads_get_is_folder p : reads (get_is_folder p).
Proof. intros w a w' H. unfold get_is_folder in H. by injection H as _ <-. Qed.

Lemma reads_get_children p : reads (get_children p).
Proof. intros w a w' H. unfold get_children in H. by injection H as _ <-. Qed.

Lemma reads_print line : reads (print line).
Proof. intros w a w' H. unfold print in H. by injection H as _ <-. Qed.

#[export] Hint Resolve reads_ret reads_bind reads_getitem_is_folder
  reads_getitem_children reads_get_is_folder reads_get_children reads_print : py.

Lemma reads_for_each {A} (body : A -> M unit) l :
  (forall x, reads (body x)) -> reads (for_each body l).
Proof. intros Hb. induction l; simpl; auto with py. Qed.

Lemma reads_map_m {A B} (f : A -> M B) l :
  (forall x, reads (f x)) -> reads (map_m f l).
Proof. intros Hf. induction l; simpl; auto 6 with py. Qed.

Lemma reads_sorted files l : reads (sorted (sort_key files) l).
Proof.
  unfold sorted. apply reads_bind; [|auto with py].
  apply reads_map_m. intros x. unfold sort_key. auto with py.
Qed.

Lemma reads_print_tree files fuel : forall node level,
  reads (_print_tree files fuel node level).
Proof.
  induction fuel as [|fuel IH]; intros node level; [done|].
  cbn [_print_tree]. do 3 (apply reads_bind; [by auto with py|]; intros ?).
  destruct (_ && _); [|auto with py].
  apply reads_bind; [auto with py|]. intros l.
  apply reads_bind; [apply reads_sorted|]. intros l'.
  by apply reads_for_each.
Qed.

Lemma reads_print_forest files fuel tree : reads (print_forest files fuel tree).
Proof.
  unfold print_forest. apply reads_bind; [apply reads_sorted|].
  intros [|r l]; [auto with py|]. apply reads_for_each. intros x.
  apply reads_print_tree.
Qed.

(** What a computation of both disciplines printed is the same wherever
    it runs on the same heap. *)
Lemma rerun {A} (c : M A) w a w1 :
  appends c -> reads c -> c w = Done (a, w1) ->
  exists ls, w1 = World (heap w) (stdout w ++ ls) /\
    forall out, c (World (heap w) out) = Done (a, World (heap w) (out ++ ls)).
Proof.
  intros Ha Hr H. pose proof (Hr _ _ _ H) as Hh. destruct w as [h out]. simpl in *.
  rewrite Ha in H. destruct (c (World h [])) as [[a' [h' ls]]| |] eqn:E; [|done|done].
  simpl in H. injection H as -> <-. simpl in Hh. subst h'.
  exists ls. split; [done|]. intros out'. by rewrite Ha, E.
Qed.

(** ** The attachment rule, in the words of the specification *)

Section Rule.

Variable files : list file.
Hypothesis unique_ids : NoDup (id <$> files).

Lemma resolves_Some parent_id p :
  resolves files parent_id = Some p <->
  exists fp, files !! p = Some fp /\ id fp = parent_id /\ is_folder_type fp = true.
Proof.
  unfold resolves. split.
  - destruct (file_map files !! parent_id) as [q|] eqn:E; [|done].
    apply file_map_Some in E as (fq & Hq & Hid).
    rewrite (record_lookup _ _ _ Hq).
    destruct (is_folder_type fq) eqn:Ef; [|done]. intros [= ->]. eauto.
  - intros (fp & Hp & <- & Hf).
    rewrite (file_map_NoDup _ _ _ unique_ids Hp), (record_lookup _ _ _ Hp).
    by rewrite Hf.
Qed.

Lemma resolves_None parent_id :
  resolves files parent_id = None <-> ~ fetched_folder files parent_id.
Proof.
  split.
  - intros Hn (q & fq & Hq & Hid & Hf).
    assert (resolves files parent_id = Some q) by (apply resolves_Some; eauto).
    congruence.
  - intros Hn. destruct (resolves files parent_id) as [p|] eqn:E; [|done].
    apply resolves_Some in E as (fp & ? & ? & ?). destruct Hn. by exists p, fp.
Qed.

Lemma first_folder_spec ps p :
  first_folder files ps = Some p <->
  exists fp k, files !! p = Some fp /\ is_folder_type fp = true /\
    ps !! k = Some (id fp) /\
    forall j parent_id, j < k -> ps !! j = Some parent_id ->
      ~ fetched_folder files parent_id.
Proof.
  induction ps as [|parent_id ps IH]; simpl.
  { split; [done|]. by intros (? & ? & _ & _ & ? & _). }
  destruct (resolves files parent_id) as [q|] eqn:E.
  - split.
    + intros [= ->]. apply resolves_Some in E as (fp & Hp & <- & Hf).
      exists fp, 0. split_and!; [done|done|done|]. intros; lia.
    + intros (fp & k & Hp & Hf & Hk & Hbefore). destruct k as [|k].
      * simpl in Hk. injection Hk as ->.
        assert (resolves files (id fp) = Some p) by (apply resolves_Some; eauto).
        congruence.
      * destruct (Hbefore 0 parent_id); [lia|done|].
        apply resolves_Some in E as (fq & ? & ? & ?). by exists q, fq.
  - rewrite IH. apply resolves_None in E. split.
    + intros (fp & k & Hp & Hf & Hk & Hbefore). exists fp, (S k).
      split_and!; [done|done|done|]. intros [|j] pid Hj Hpid; simpl in Hpid.
      * by injection Hpid as <-.
      * apply (Hbefore j); [lia|done].
    + intros (fp & k & Hp & Hf & Hk & Hbefore). destruct k as [|k].
      * simpl in Hk. injection Hk as ->. destruct E. by exists p, fp.
      * exists fp, k. split_and!; [done|done|done|].
        intros j pid Hj Hpid. apply (Hbefore (S j)); [lia|done].
Qed.

(** [parent_of] computes the parent the specification names. *)
Lemma parent_of_spec c p :
  c < length files -> (parent_of files c = Some p <-> spec_parent files c p).
Proof.
  intros Hc. destruct (lookup_lt_is_Some_2 files c Hc) as [fc Hfc].
  unfold parent_of, parent_list, spec_parent.
  rewrite (record_lookup _ _ _ Hfc), first_folder_spec. split.
  - intros (fp & k & ? & ? & ? & ?). by exists fc, fp, k.
  - intros (fc' & fp & k & ? & ? & ? & ? & ?). simplify_eq. by exists fp, k.
Qed.

Lemma spec_parent_lt c p : spec_parent files c p -> c < length files.
Proof. intros (fc & _ & _ & Hc & _). by apply lookup_lt_Some in Hc. Qed.

End Rule.

(** ** [list_files] on a batch that builds *)

Section Listed.

Variable files : list file.

Lemma top_elem c :
  c ∈ top files <-> parent_of files c = None /\ c < length files.
Proof.
  unfold top, values, roots. rewrite keyed_values, list_elem_of_filter, elem_of_seq.
  intuition lia.
Qed.

Lemma built_console out out' k tree w :
  built files out k tree w -> built files out' k tree (World (heap w) out').
Proof. intros [? ? ? ? ? ?]. by split. Qed.

Lemma print_forest_built out tree w fuel :
  built files out (length files) tree w -> length files <= fuel ->
  print_forest files fuel tree w =
    Done (tt, World (heap w) (stdout w ++ forest_lines files fuel)).
Proof.
  intros Hb Hfuel. pose proof Hb as [Hlen Hdone _ Htree Hord _].
  unfold print_forest, bind, forest_lines, visits. rewrite Htree. fold (top files).
  rewrite sorted_built.
  2:{ intros c Hc. apply top_elem in Hc as [_ Hc].
      by apply (decorated_is_folder files (heap w)). }
  assert (Hroots : forall c, c ∈ order files (top files) ->
    c < length files /\ parent_of files c <> Some c).
  { intros c Hc. rewrite order_Permutation in Hc. apply top_elem in Hc as [Hc ?].
    split; [done|congruence]. }
  destruct (order files (top files)) as [|r l]; [done|].
  apply (for_each_lines (line_of files) (heap w) _
           (fun r0 => walk files fuel r0 0)); [|reflexivity].
  intros c w' Hc Hw'. apply Hroots in Hc as [? ?].
  apply (print_tree_built files (heap w) Hdone Hord); [done|done|done|lia].
Qed.

Lemma list_files_built tree w fuel :
  files <> [] ->
  _build_tree files (fetched files) = Done (tree, w) ->
  built files [] (length files) tree w ->
  length files <= fuel ->
  list_files files fuel (fetched files) =
    Done (tt, World (heap w) (msg_building :: forest_lines files fuel)).
Proof.
  intros Hne Hbuild Hb Hfuel. unfold list_files.
  destruct files as [|f0 l0] eqn:Efiles; [done|]. rewrite <- Efiles in *.
  unfold bind at 1. unfold print at 1. unfold fetched. cbn [heap stdout app].
  unfold bind. rewrite appends_build_tree.
  unfold fetched in Hbuild. rewrite Hbuild. cbn [prepend].
  rewrite (built_stdout _ _ _ _ _ Hb).
  rewrite (print_forest_built [msg_building] tree); [done| |done].
  by apply (built_console []).
Qed.

Lemma list_files_raises e fuel :
  files <> [] ->
  _build_tree files (fetched files) = Raised e ->
  list_files files fuel (fetched files) = Raised e.
Proof.
  intros Hne Hbuild. unfold list_files. destruct files as [|f0 l0] eqn:Efiles; [done|].
  rewrite <- Efiles in *.
  unfold bind at 1. unfold print at 1. unfold fetched. cbn [heap stdout app].
  unfold bind. rewrite appends_build_tree.
  unfold fetched in Hbuild. by rewrite Hbuild.
Qed.

End Listed.

(** ** Every record has one place *)

Lemma bind_app_Permutation {A B} (f g : A -> list B) (l : list A) :
  l ≫= (fun x => f x ++ g x) ≡ₚ (l ≫= f) ++ (l ≫= g).
Proof.
  induction l as [|x l IH]; [done|]. rewrite !bind_cons, IH.
  rewrite <- !app_assoc. f_equiv. rewrite !app_assoc. f_equiv.
  apply Permutation_app_comm.
Qed.

Lemma bind_indicator (o : option nat) (k : nat) (l : list nat) :
  NoDup l ->
  l ≫= (fun p => if decide (o = Some p) then [k] else []) =
  match o with
  | Some q => if decide (q ∈ l) then [k] else []
  | None => []
  end.
Proof.
  induction 1 as [|p l Hp Hl IH]; [by destruct o|].
  rewrite bind_cons, IH. destruct o as [q|]; [|by rewrite decide_False].
  destruct (decide (Some q = Some p)) as [[= ->]|Hne].
  - rewrite decide_False by done. rewrite decide_True by left. done.
  - simpl. destruct (decide (q ∈ l)) as [Hq|Hq].
    + rewrite decide_True by (by right). done.
    + rewrite decide_False; [done|]. intros [->|?]%elem_of_cons; done.
Qed.

Section Places.

Variable files : list file.

Lemma parent_of_lt c p : parent_of files c = Some p -> p < length files.
Proof. intros H. by apply first_folder_Some in H as [? _]. Qed.

Lemma partition_by_parent k :
  values (roots files k) ++ (seq 0 (length files) ≫= kids files k) ≡ₚ seq 0 k.
Proof.
  induction k as [|k IH].
  - simpl. apply reflexive_eq. induction (seq 0 (length files)) as [|p l IHl]; [done|].
    by rewrite bind_cons, IHl.
  - rewrite seq_S. simpl. rewrite <- IH. rewrite roots_S. unfold values.
    rewrite fmap_app.
    rewrite (Forall_bind_ext (kids files (S k))
               (fun p => kids files k p ++
                  (if decide (parent_of files k = Some p) then [k] else []))).
    2:{ apply Forall_forall. intros p _. apply kids_S. }
    rewrite bind_app_Permutation, bind_indicator by apply NoDup_seq.
    destruct (parent_of files k) as [q|] eqn:Eq.
    + rewrite decide_False by done. rewrite decide_True.
      2:{ apply elem_of_seq. apply parent_of_lt in Eq. lia. }
      simpl. rewrite app_nil_r. by rewrite app_assoc.
    + rewrite decide_True by done. simpl. rewrite app_nil_r.
      rewrite <- !app_assoc. f_equiv. apply Permutation_app_comm.
Qed.

Lemma built_heap out tree w :
  built files out (length files) tree w ->
  heap w = (fun p => Deco (Some (is_folder_type (record files p)))
                       (Some (kids files (length files) p)))
           <$> seq 0 (length files).
Proof.
  intros [Hlen Hdone _ _ _ _]. apply list_eq. intros p.
  rewrite list_lookup_fmap. destruct (decide (p < length files)) as [Hp|Hp].
  - by rewrite Hdone, lookup_seq_lt.
  - rewrite lookup_seq_ge, lookup_ge_None_2 by lia. done.
Qed.

Lemma built_children_lists out tree w :
  built files out (length files) tree w ->
  children_lists w = seq 0 (length files) ≫= kids files (length files).
Proof.
  intros Hb. unfold children_lists. rewrite (built_heap _ _ _ Hb).
  by rewrite list_fmap_bind.
Qed.

Lemma built_placements out tree w :
  built files out (length files) tree w ->
  placements tree w ≡ₚ seq 0 (length files).
Proof.
  intros Hb. unfold placements.
  rewrite (built_children_lists _ _ _ Hb), (built_tree _ _ _ _ _ Hb).
  apply partition_by_parent.
Qed.

Lemma built_child_of out tree w c p :
  built files out (length files) tree w ->
  child_of w c p <-> parent_of files c = Some p /\ c < length files.
Proof.
  intros [Hlen Hdone _ _ _ _]. unfold child_of, obj. split.
  - intros (l & Hl & Hc). destruct (decide (p < length files)) as [Hp|Hp].
    + rewrite Hdone in Hl by done. simpl in Hl. injection Hl as <-.
      by apply kids_elem in Hc.
    + rewrite lookup_ge_None_2 in Hl by lia. done.
  - intros [Hc Hcn]. exists (kids files (length files) p).
    rewrite Hdone by (by eapply parent_of_lt). split; [done|]. by apply kids_elem.
Qed.

Lemma built_top out tree w c :
  built files out (length files) tree w ->
  c ∈ values tree <-> parent_of files c = None /\ c < length files.
Proof. intros Hb. rewrite (built_tree _ _ _ _ _ Hb). apply top_elem. Qed.

End Places.

(** ** The order of siblings *)

Lemma heap_key_le files w x y :
  key_le (heap_key files w x) (heap_key files w y) <-> sibling_le files w x y.
Proof.
  unfold key_le, heap_key, sibling_le, folder_flag.
  destruct (truthy_bool (is_folder (obj w x))), (truthy_bool (is_folder (obj w y)));
    unfold lexico, prod_lexico, lexico, bool_lexico; simpl; intuition congruence.
Qed.

Lemma strongly_sorted_impl {A} (R R' : relation A) (l : list A) :
  (forall x y, R x y -> R' x y) -> StronglySorted R l -> StronglySorted R' l.
Proof.
  intros HR. induction 1 as [|x l HS IH Hx]; constructor; [done|].
  eapply Forall_impl; [exact Hx|]. intros y. apply HR.
Qed.

Lemma sorted_values {A} (key : A -> bool * pystr) (L : list ((bool * pystr) * A)) :
  (forall x, x ∈ L -> x.1 = key x.2) ->
  StronglySorted keyed_le L ->
  StronglySorted (fun c d => key_le (key c) (key d)) L.*2.
Proof.
  intros HL. induction 1 as [|x L HS IH Hx]; [constructor|].
  rewrite fmap_cons. constructor.
  - apply IH. intros y Hy. apply HL. by right.
  - apply Forall_fmap, Forall_forall. intros y Hy. simpl.
    rewrite <- (HL x) by left. rewrite <- (HL y) by (by right).
    rewrite Forall_forall in Hx. by apply Hx.
Qed.

Lemma sorted_siblings files l w l' w' :
  sorted (sort_key files) l w = Done (l', w') ->
  w' = w /\ l' ≡ₚ l /\ StronglySorted (sibling_le files w) l'.
Proof.
  intros H. apply sorted_done in H as [-> ->]. split; [done|]. split.
  - by rewrite sort_keyed_Permutation, keyed_values.
  - eapply strongly_sorted_impl; [|apply (sorted_values (heap_key files w))].
    + intros x y. apply heap_key_le.
    + intros x Hx. rewrite sort_keyed_Permutation in Hx.
      apply list_elem_of_fmap in Hx as (c & -> & _). done.
    + apply sort_keyed_sorted.
Qed.

Lemma filter_seq_sorted (P : nat -> Prop) `{!forall x, Decision (P x)} k : forall i,
  StronglySorted lt (filter P (seq i k)).
Proof.
  induction k as [|k IH]; intros i; [constructor|].
  cbn [seq]. rewrite filter_cons. destruct (decide (P i)); [|apply IH].
  constructor; [apply IH|]. apply Forall_forall. intros c Hc.
  apply list_elem_of_filter in Hc as [_ Hc]. apply elem_of_seq in Hc. lia.
Qed.

(** ** A record without ['parents'] *)

Lemma file_map_from_insert l : forall i m j f g,
  l !! j = Some f -> id g = id f ->
  file_map_from i (<[j := g]> l) m = file_map_from i l m.
Proof.
  induction l as [|h l IH]; intros i m j f g Hj Hid; [done|].
  destruct j as [|j]; simpl in Hj.
  - injection Hj as ->. cbn [insert list_insert]. by rewrite !file_map_from_cons, Hid.
  - cbn [insert list_insert]. rewrite !file_map_from_cons. by apply (IH _ _ j f).
Qed.

Lemma build_step_same fm tree i f g w :
  id g = id f -> mimeType g = mimeType f ->
  default [] (parents g) = default [] (parents f) ->
  build_step fm tree i g w = build_step fm tree i f w.
Proof. intros Hid Hm Hp. unfold build_step. by rewrite Hid, Hm, Hp. Qed.

Lemma build_loop_insert fm l : forall tree i j f g w,
  l !! j = Some f ->
  id g = id f -> mimeType g = mimeType f ->
  default [] (parents g) = default [] (parents f) ->
  build_loop fm tree i (<[j := g]> l) w = build_loop fm tree i l w.
Proof.
  induction l as [|h l IH]; intros tree i j f g w Hj Hid Hm Hp; [done|].
  destruct j as [|j]; simpl in Hj.
  - injection Hj as ->. cbn [insert list_insert build_loop]. unfold bind.
    by rewrite (build_step_same fm tree i f g).
  - cbn [insert list_insert build_loop]. unfold bind.
    destruct (build_step fm tree i h w) as [[tree1 w1]| |]; [|done|done].
    by apply (IH _ _ j f).
Qed.

(** * The claims *)

Lemma roots_elem files k i c :
  (i, c) ∈ roots files k <->
  i = id (record files c) /\ parent_of files c = None /\ c < k.
Proof.
  unfold roots. rewrite list_elem_of_fmap. split.
  - intros (c' & [= -> ->] & Hc). apply list_elem_of_filter in Hc as [? Hc].
    apply elem_of_seq in Hc. split_and!; [done|done|lia].
  - intros (-> & Hc & Hk). exists c. split; [done|].
    apply list_elem_of_filter. split; [done|]. apply elem_of_seq. lia.
Qed.

Lemma first_folder_None files ps parent_id :
  first_folder files ps = None -> parent_id ∈ ps -> resolves files parent_id = None.
Proof.
  induction ps as [|q ps IH]; intros Hn Hin; [by apply elem_of_nil in Hin|].
  simpl in Hn. destruct (resolves files q) eqn:E; [done|].
  apply elem_of_cons in Hin as [->|Hin]; [done|by apply IH].
Qed.

(** C1, at a batch that breaks it: the folder [a] is fetched before its
    parent folder [z].  The identifiers are unique, [z] is a fetched Folder
    and the first entry of the parent list of [a] that resolves to one, so
    the claim has [a] attached to [z]; the builder raises [KeyError] at
    [file_map[parent_id]['is_folder']] instead, because [z] has no key
    ['is_folder'] before its own round of the loop. *)
Theorem C1_child_before_parent :
  NoDup (id <$> child_first) /\
  spec_parent child_first 0 1 /\
  _build_tree child_first (fetched child_first) = Raised (KeyError "is_folder").
Proof.
  assert (Hnd : NoDup (id <$> child_first)).
  { apply (bool_decide_unpack _). by vm_compute. }
  split_and!; [done| |by vm_compute].
  apply (parent_of_spec _ Hnd); [simpl; lia|by vm_compute].
Qed.

(** On a batch with unique identifiers that the builder completes, [c] is
    in the children list of [p] exactly when [p] is the parent the
    specification names, and no object is in two children lists or twice
    in one. *)
Theorem build_attaches_first_folder files tree w c p :
  NoDup (id <$> files) ->
  _build_tree files (fetched files) = Done (tree, w) ->
  (child_of w c p <-> spec_parent files c p) /\ NoDup (children_lists w).
Proof.
  intros Hnd H. apply build_tree_built in H; [|done]. split.
  - rewrite (built_child_of _ _ _ _ _ _ H). split.
    + intros [Hc Hcn]. by apply parent_of_spec.
    + intros Hs. pose proof (spec_parent_lt _ _ _ Hs). split; [|done].
      by apply parent_of_spec.
  - assert (Hp : NoDup (placements tree w)).
    { rewrite (built_placements _ _ _ _ H). apply NoDup_seq. }
    by apply NoDup_app in Hp as (_ & _ & ?).
Qed.

Lemma build_attaches_first_folder_witness :
  child_of (World [Deco (Some true) (Some [1]); Deco (Some false) (Some []);
                   Deco (Some true) (Some [])] []) 1 0 <->
  spec_parent docs_batch 1 0.
Proof.
  refine (proj1 (build_attaches_first_folder docs_batch _ _ 1 0 _ _)).
  - apply (bool_decide_unpack _). by vm_compute.
  - by vm_compute.
Defined.

(** C2, at a batch that breaks it: the identifiers of [child_first] are
    unique, and the build of it ends in [KeyError] in the round of its
    first record.  The two assignments of that round lead to the state in
    which the scan of the parents raises: there the top-level dictionary
    is still empty and no children list holds an object, so each of the
    two records is in neither of the two places the claim gives it, and
    no forest is returned. *)
Theorem C2_neither_place :
  NoDup (id <$> child_first) /\
  _build_tree child_first (fetched child_first) = Raised (KeyError "is_folder") /\
  exists w,
    (set_children 0 [] ;;; set_is_folder 0 true) (fetched child_first) = Done (tt, w) /\
    attach (file_map child_first) 0 [py "z"] w = Raised (KeyError "is_folder") /\
    placements [] w = [] /\
    forall c, (c ∉ values []) /\ forall p, ~ child_of w c p.
Proof.
  split; [apply (bool_decide_unpack _); by vm_compute|].
  split; [by vm_compute|].
  exists (World [Deco (Some true) (Some []); undecorated] []).
  split_and!; [by vm_compute|by vm_compute|by vm_compute|].
  intros c. split; [apply not_elem_of_nil|].
  intros p (l & Hl & Hc). destruct p as [|[|p]].
  - injection Hl as <-. by apply elem_of_nil in Hc.
  - done.
  - done.
Qed.

(** After a completed build of a batch with unique identifiers, the
    top-level entries and the children lists together hold every object of
    the batch exactly once; so an object is either at the top level and in
    no children list, or in the children list of one object and not at the
    top level. *)
Theorem build_one_place files tree w :
  NoDup (id <$> files) ->
  _build_tree files (fetched files) = Done (tree, w) ->
  placements tree w ≡ₚ seq 0 (length files) /\
  forall c, c < length files ->
    (c ∈ values tree /\ forall p, ~ child_of w c p) \/
    ((c ∉ values tree) /\ exists p, child_of w c p /\ forall q, child_of w c q -> q = p).
Proof.
  intros Hnd H. apply build_tree_built in H; [|done]. split.
  - by apply (built_placements files []).
  - intros c Hc. destruct (parent_of files c) as [p|] eqn:Ep.
    + right. split.
      * rewrite (built_top _ _ _ _ _ H). intros [? _]. congruence.
      * exists p. split; [by apply (built_child_of _ _ _ _ _ _ H)|].
        intros q Hq. apply (built_child_of _ _ _ _ _ _ H) in Hq as [Hq _]. congruence.
    + left. split.
      * by apply (built_top _ _ _ _ _ H).
      * intros p Hp. apply (built_child_of _ _ _ _ _ _ H) in Hp as [Hp _]. congruence.
Qed.

Lemma build_one_place_witness :
  placements [(py "1", 0); (py "3", 2)]
    (World [Deco (Some true) (Some [1]); Deco (Some false) (Some []);
            Deco (Some true) (Some [])] []) ≡ₚ seq 0 3.
Proof.
  refine (proj1 (build_one_place docs_batch _ _ _ _)).
  - apply (bool_decide_unpack _). by vm_compute.
  - by vm_compute.
Defined.

(** C3, at a batch that breaks it: on the batch of C1 the builder raises
    [KeyError], and [list_files], which does not catch it, raises it
    too. *)
Theorem C3_list_files_raises fuel :
  list_files child_first fuel (fetched child_first) = Raised (KeyError "is_folder").
Proof. apply list_files_raises; [done|by vm_compute]. Qed.

Section NoSelfParent.

Variable files : list file.
Hypothesis unique_ids : NoDup (id <$> files).
Hypothesis no_self : forall c, ~ spec_parent files c c.

Lemma built_before out tree w c p :
  built files out (length files) tree w ->
  c < length files -> parent_of files c = Some p -> p < c.
Proof.
  intros Hb Hc Hp. pose proof (built_order _ _ _ _ _ Hb c p Hc Hp).
  destruct (decide (p = c)) as [->|]; [|lia].
  destruct (no_self c). by apply parent_of_spec.
Qed.

Lemma first_is_top out tree w :
  built files out (length files) tree w -> files <> [] -> 0 ∈ top files.
Proof.
  intros Hb Hne. apply top_elem.
  assert (0 < length files) by (destruct files; [done|simpl; lia]).
  split; [|done]. destruct (parent_of files 0) as [p|] eqn:Ep; [|done].
  pose proof (built_before _ _ _ 0 p Hb ltac:(done) Ep). lia.
Qed.

End NoSelfParent.

(** C4, as it stands, at a batch that breaks it: a folder that lists
    itself as its parent becomes its own child, is no top-level entry, and
    is never printed.  Of the two records of [loop_batch], whose
    identifiers are unique, [list_files] prints the line of the second
    only, behind its notice. *)
Lemma C4_self_parent_lost :
  NoDup (id <$> loop_batch) /\
  length loop_batch = 2 /\
  list_files loop_batch 2 (fetched loop_batch) =
    Done (tt, World [Deco (Some true) (Some [0]); Deco (Some false) (Some [])]
                    [msg_building; line_of loop_batch (1, 0)]).
Proof.
  split_and!; [|done|by vm_compute].
  apply (bool_decide_unpack _). by vm_compute.
Qed.

(** C4, amended: for a batch with unique identifiers that the builder
    completes and in which no record is the parent the specification names
    for itself, [list_files] prints one notice and then one line for each
    record: the objects of the lines are the objects of the batch, each
    once. *)
Theorem C4_one_line_per_record files tree w fuel :
  NoDup (id <$> files) ->
  (forall c, ~ spec_parent files c c) ->
  _build_tree files (fetched files) = Done (tree, w) ->
  length files <= fuel ->
  exists notice vs,
    notice ∈ [msg_no_files; msg_building] /\
    list_files files fuel (fetched files) =
      Done (tt, World (heap w) (notice :: (line_of files <$> vs))) /\
    vs.*1 ≡ₚ seq 0 (length files) /\
    length vs = length files.
Proof.
  intros Hnd Hself H Hfuel. destruct (decide (files = [])) as [->|Hne].
  - exists msg_no_files, []. injection H as <- <-.
    split_and!; [left|done|done|done].
  - pose proof (build_tree_built _ Hnd _ _ _ H) as Hb.
    assert (Hbefore : forall c p,
      c < length files -> parent_of files c = Some p -> p < c)
      by (intros c p; by apply (built_before files Hnd Hself [] tree w)).
    pose proof (visits_Permutation files Hbefore fuel Hfuel) as Hperm.
    exists msg_building, (visits files fuel). split_and!.
    + right. left.
    + rewrite (list_files_built files tree w fuel Hne H Hb Hfuel). unfold forest_lines.
      destruct (order files (top files)) as [|r l] eqn:Eo; [|done].
      pose proof (first_is_top files Hnd Hself [] tree w Hb Hne) as H0.
      rewrite <- (order_Permutation files), Eo in H0. by apply elem_of_nil in H0.
    + done.
    + by rewrite <- (length_fmap fst), Hperm, length_seq.
Qed.

Lemma C4_one_line_per_record_witness :
  exists notice vs,
    notice ∈ [msg_no_files; msg_building] /\
    list_files docs_batch 3 (fetched docs_batch) =
      Done (tt, World [Deco (Some true) (Some [1]); Deco (Some false) (Some []);
                       Deco (Some true) (Some [])]
                      (notice :: (line_of docs_batch <$> vs))) /\
    vs.*1 ≡ₚ seq 0 3 /\
    length vs = 3.
Proof.
  assert (Hnd : NoDup (id <$> docs_batch)).
  { apply (bool_decide_unpack _). by vm_compute. }
  refine (C4_one_line_per_record docs_batch [(py "1", 0); (py "3", 2)]
            (World _ []) 3 Hnd _ _ _).
  - intros c Hc. pose proof (spec_parent_lt _ _ _ Hc) as Hlt.
    apply (parent_of_spec _ Hnd _ _ Hlt) in Hc.
    destruct c as [|[|[|c]]]; [by vm_compute in Hc..|simpl in Hlt; lia].
  - by vm_compute.
  - simpl. lia.
Defined.

Lemma map_m_sort_key_total files w l :
  (forall c, c ∈ l -> is_Some (is_folder (obj w c))) ->
  map_m (sort_key files) l w = Done (heap_key files w <$> l, w).
Proof.
  induction l as [|c l IH]; intros Hl; simpl; [done|].
  unfold bind at 1. unfold sort_key at 1. unfold bind at 1.
  unfold getitem_is_folder. destruct (Hl c) as [b Hb]; [left|].
  rewrite Hb. unfold ret at 1. unfold bind. rewrite IH.
  - unfold ret, heap_key at 2. by rewrite Hb.
  - intros c' Hc'. apply Hl. by right.
Qed.

(** The call [sorted(..., key=lambda x: (not x['is_folder'], x['name']))]
    that [list_files] makes on the top-level entries and [_print_tree] on
    every children list returns whenever every sibling has the key
    ['is_folder'], as every record of a built forest has; and what it
    returns are the same objects with every Folder before every regular
    file and, within each kind, the names ascending by code point,
    whatever the order they came in.  It leaves the heap and the console
    as they were. *)
Lemma sorted_in_order files l w :
  ((forall c, c ∈ l -> is_Some (is_folder (obj w c))) ->
   exists l', sorted (sort_key files) l w = Done (l', w)) /\
  (forall l' w',
     sorted (sort_key files) l w = Done (l', w') ->
     w' = w /\ l' ≡ₚ l /\ StronglySorted (sibling_le files w) l').
Proof.
  split.
  - intros Hl. unfold sorted, bind. rewrite map_m_sort_key_total by done.
    unfold ret. eauto.
  - intros l' w'. apply sorted_siblings.
Qed.

(** C6, at a batch that breaks it: the only parent of [x] is the
    identifier of [y], a fetched record that is no folder, so no entry of
    its parent list resolves to a fetched Folder and the claim has [x] at
    the top level with no error.  But [y] is fetched after [x], has no
    key ['is_folder'] when [x] is placed, and the builder raises
    [KeyError]. *)
Theorem C6_plain_parent_later :
  NoDup (id <$> plain_parent_later) /\
  (forall p, ~ spec_parent plain_parent_later 0 p) /\
  _build_tree plain_parent_later (fetched plain_parent_later) =
    Raised (KeyError "is_folder").
Proof.
  assert (Hnd : NoDup (id <$> plain_parent_later)).
  { apply (bool_decide_unpack _). by vm_compute. }
  split_and!; [done| |by vm_compute].
  intros p Hp. apply (parent_of_spec _ Hnd) in Hp; [|simpl; lia].
  by vm_compute in Hp.
Qed.

Lemma unresolved_is_top files tree w c f :
  NoDup (id <$> files) ->
  _build_tree files (fetched files) = Done (tree, w) ->
  files !! c = Some f ->
  (forall p, ~ spec_parent files c p) ->
  (id f, c) ∈ tree /\ forall p, ~ child_of w c p.
Proof.
  intros Hnd H Hc Hnone. apply build_tree_built in H; [|done].
  pose proof (lookup_lt_Some _ _ _ Hc) as Hlt.
  assert (Hp : parent_of files c = None).
  { destruct (parent_of files c) as [p|] eqn:Ep; [|done].
    destruct (Hnone p). by apply parent_of_spec. }
  split.
  - rewrite (built_tree _ _ _ _ _ H). apply roots_elem.
    by rewrite (record_lookup _ _ _ Hc).
  - intros p Hcp. apply (built_child_of _ _ _ _ _ _ H) in Hcp as [? _]. congruence.
Qed.

(** On a batch with unique identifiers that the builder completes, a
    record no entry of whose parent list resolves to a fetched Folder is
    in the top-level dictionary under its own identifier, and in no
    children list. *)
Theorem build_unresolved_top_level files tree w c f :
  NoDup (id <$> files) ->
  _build_tree files (fetched files) = Done (tree, w) ->
  files !! c = Some f ->
  (forall p, ~ spec_parent files c p) ->
  (id f, c) ∈ tree /\ forall p, ~ child_of w c p.
Proof. apply unresolved_is_top. Qed.

Lemma build_unresolved_top_level_witness :
  (py "3", 2) ∈ [(py "1", 0); (py "3", 2)].
Proof.
  refine (proj1 (build_unresolved_top_level docs_batch _ (World _ []) 2
                   (folder "3" "Photos" []) _ _ _ _)).
  - apply (bool_decide_unpack _). by vm_compute.
  - by vm_compute.
  - reflexivity.
  - intros p Hp. apply parent_of_spec in Hp; [by vm_compute in Hp| |simpl; lia].
    apply (bool_decide_unpack _). by vm_compute.
Defined.

(** C7, as it stands, at a batch that breaks it: the one record of
    [self_folder] is a folder whose parent list holds its own identifier.
    The build returns, with an empty top-level dictionary: the record is
    in its own children list, not at the top level. *)
Lemma C7_self_folder_not_top :
  NoDup (id <$> self_folder) /\
  py "1" ∈ parent_list self_folder 0 /\
  _build_tree self_folder (fetched self_folder) =
    Done ([], World [Deco (Some true) (Some [0])] []).
Proof.
  split_and!; [|left|by vm_compute].
  apply (bool_decide_unpack _). by vm_compute.
Qed.

(** C7, amended: for a batch with unique identifiers that the builder
    completes and a record of it whose parent list holds its own
    identifier, printing the forest returns within as many levels as the
    batch has records; the record is at the top level exactly when no
    entry of its parent list resolves to a fetched Folder, and never when
    it is itself a Folder: then it is in the children list of the
    parent the specification names, itself if no earlier entry
    resolves. *)
Theorem C7_self_parent files tree w fuel c f :
  NoDup (id <$> files) ->
  files !! c = Some f ->
  id f ∈ default [] (parents f) ->
  _build_tree files (fetched files) = Done (tree, w) ->
  length files <= fuel ->
  (exists ls, print_forest files fuel tree w = Done (tt, World (heap w) ls)) /\
  ((id f, c) ∈ tree <-> forall p, ~ spec_parent files c p) /\
  (is_folder_type f = true ->
   (c ∉ values tree) /\ exists p, spec_parent files c p /\ child_of w c p).
Proof.
  intros Hnd Hc Hself H Hfuel. apply build_tree_built in H; [|done].
  pose proof (lookup_lt_Some _ _ _ Hc) as Hlt. split_and!.
  - rewrite (print_forest_built files [] tree w fuel H Hfuel). eauto.
  - rewrite (built_tree _ _ _ _ _ H), roots_elem, (record_lookup _ _ _ Hc). split.
    + intros (_ & Hp & _) p Hs. apply parent_of_spec in Hs; [congruence|done|done].
    + intros Hnone. split_and!; [done| |done].
      destruct (parent_of files c) as [p|] eqn:Ep; [|done].
      destruct (Hnone p). by apply parent_of_spec.
  - intros Hf. destruct (parent_of files c) as [p|] eqn:Ep.
    + split.
      * rewrite (built_top _ _ _ _ _ H). intros [? _]. congruence.
      * exists p. split; [by apply parent_of_spec|].
        by apply (built_child_of _ _ _ _ _ _ H).
    + unfold parent_of, parent_list in Ep. rewrite (record_lookup _ _ _ Hc) in Ep.
      pose proof (first_folder_None _ _ _ Ep Hself) as Hr.
      assert (resolves files (id f) = Some c) by (apply resolves_Some; eauto).
      congruence.
Qed.

Lemma C7_self_parent_witness :
  (exists ls, print_forest self_folder 1 [] (World [Deco (Some true) (Some [0])] []) =
     Done (tt, World [Deco (Some true) (Some [0])] ls)) /\
  ((py "1", 0) ∈ [] <-> forall p, ~ spec_parent self_folder 0 p) /\
  (is_folder_type (folder "1" "loop" ["1"]) = true ->
   (0 ∉ values []) /\
   exists p, spec_parent self_folder 0 p /\
     child_of (World [Deco (Some true) (Some [0])] []) 0 p).
Proof.
  refine (C7_self_parent self_folder [] (World _ []) 1 0
            (folder "1" "loop" ["1"]) _ _ _ _ _).
  - apply (bool_decide_unpack _). by vm_compute.
  - reflexivity.
  - left.
  - by vm_compute.
  - simpl. lia.
Defined.

(** C8: printing the forest of a built batch returns, and printing it a
    second time, with no build in between, prints the lines of the first
    time again.  The printer leaves the heap as the builder left it:
    [sorted] returns a list of its own, and every children list is still
    in the order of the fetch. *)
Theorem C8_render_twice files tree w fuel :
  NoDup (id <$> files) ->
  _build_tree files (fetched files) = Done (tree, w) ->
  length files <= fuel ->
  exists ls w1,
    print_forest files fuel tree w = Done (tt, w1) /\
    w1 = World (heap w) (stdout w ++ ls) /\
    print_forest files fuel tree w1 = Done (tt, World (heap w) (stdout w1 ++ ls)) /\
    forall p l, children (obj w1 p) = Some l -> StronglySorted lt l.
Proof.
  intros Hnd H Hfuel. apply build_tree_built in H; [|done].
  pose proof (print_forest_built files [] tree w fuel H Hfuel) as Hp.
  destruct (rerun _ _ _ _ (appends_print_forest files fuel tree)
              (reads_print_forest files fuel tree) Hp) as (ls & Hw1 & Hagain).
  exists ls, (World (heap w) (stdout w ++ ls)).
  split_and!; [by rewrite Hp, Hw1|done|apply Hagain|].
  intros p l Hl. unfold obj in Hl. cbn [heap] in Hl.
  destruct (decide (p < length files)) as [Hlt|Hge].
  - rewrite (built_done _ _ _ _ _ H p Hlt) in Hl. simpl in Hl. injection Hl as <-.
    apply filter_seq_sorted.
  - rewrite lookup_ge_None_2 in Hl; [done|]. rewrite (built_length _ _ _ _ _ H). lia.
Qed.

Lemma C8_render_twice_witness :
  exists ls w1,
    print_forest docs_batch 3 [(py "1", 0); (py "3", 2)]
      (World [Deco (Some true) (Some [1]); Deco (Some false) (Some []);
              Deco (Some true) (Some [])] []) = Done (tt, w1) /\
    w1 = World [Deco (Some true) (Some [1]); Deco (Some false) (Some []);
                Deco (Some true) (Some [])] ([] ++ ls) /\
    print_forest docs_batch 3 [(py "1", 0); (py "3", 2)] w1 =
      Done (tt, World [Deco (Some true) (Some [1]); Deco (Some false) (Some []);
                       Deco (Some true) (Some [])] (stdout w1 ++ ls)) /\
    forall p l, children (obj w1 p) = Some l -> StronglySorted lt l.
Proof.
  refine (C8_render_twice docs_batch [(py "1", 0); (py "3", 2)] (World _ []) 3 _ _ _).
  - apply (bool_decide_unpack _). by vm_compute.
  - by vm_compute.
  - simpl. lia.
Defined.

(** C9, at a batch that breaks it: [parent_first] and [child_first] hold
    the same two records, with unique identifiers and one parent at most
    each.  With the outer folder first the builder attaches the inner
    folder to it; with the inner folder first it raises [KeyError]. *)
Theorem C9_fetch_order_matters :
  parent_first ≡ₚ child_first /\
  NoDup (id <$> parent_first) /\
  Forall (fun f => length (default [] (parents f)) <= 1) parent_first /\
  _build_tree parent_first (fetched parent_first) =
    Done ([(py "z", 0)],
          World [Deco (Some true) (Some [1]); Deco (Some true) (Some [])] []) /\
  _build_tree child_first (fetched child_first) = Raised (KeyError "is_folder").
Proof.
  split_and!; [apply Permutation_swap| | |by vm_compute|by vm_compute].
  - apply (bool_decide_unpack _). by vm_compute.
  - repeat constructor.
Qed.

(** C10: a record without the key ['parents'] is built as the same record
    with an empty parent list is, in every state; and when the builder
    completes a batch with unique identifiers, the record is in the
    top-level dictionary under its own identifier and in no children
    list. *)
Theorem C10_missing_parents files i f :
  files !! i = Some f ->
  parents f = None ->
  (forall w, _build_tree files w =
             _build_tree (<[i := with_empty_parents f]> files) w) /\
  (forall tree w,
     NoDup (id <$> files) ->
     _build_tree files (fetched files) = Done (tree, w) ->
     (id f, i) ∈ tree /\ forall p, ~ child_of w i p).
Proof.
  intros Hi Hp. split.
  - intros w. unfold _build_tree, file_map.
    rewrite (file_map_from_insert files 0 ∅ i f) by done.
    symmetry. apply (build_loop_insert _ _ _ _ _ f); [done|done|done|].
    simpl. by rewrite Hp.
  - intros tree w Hnd H. apply (unresolved_is_top files tree w i f); try done.
    intros p (fc & fp & k & Hfc & _ & _ & Hk & _). simplify_eq.
    rewrite Hp in Hk. done.
Qed.

Lemma C10_missing_parents_witness :
  _build_tree bare_batch (fetched bare_batch) =
    _build_tree (<[0 := with_empty_parents
                          (File (py "7") (py "shared.txt") (py "text/plain") None)]>
                   bare_batch) (fetched bare_batch) /\
  (py "7", 0) ∈ [(py "7", 0)] /\
  forall p, ~ child_of (World [Deco (Some false) (Some [])] []) 0 p.
Proof.
  destruct (C10_missing_parents bare_batch 0
              (File (py "7") (py "shared.txt") (py "text/plain") None)
              eq_refl eq_refl) as [Hsame Hplace].
  split; [apply Hsame|]. apply Hplace.
  - apply (bool_decide_unpack _). by vm_compute.
  - by vm_compute.
Defined.

(** ** The order of the fetch *)

Lemma folder_id_fetched files parent_id :
  folder_id files parent_id <-> fetched_folder files parent_id.
Proof.
  split.
  - intros (fq & Hin & ? & ?). apply list_elem_of_lookup in Hin as [q ?]. by exists q, fq.
  - intros (q & fq & Hq & ? & ?). exists fq. split; [|done].
    by eapply list_elem_of_lookup_2.
Qed.

Lemma folder_id_Permutation files files' parent_id :
  files ≡ₚ files' -> folder_id files parent_id -> folder_id files' parent_id.
Proof. intros Hp (fq & Hin & ? & ?). exists fq. by rewrite <- Hp. Qed.

Lemma first_parent_id_Permutation files files' fc pid :
  files ≡ₚ files' -> first_parent_id files fc pid -> first_parent_id files' fc pid.
Proof.
  intros Hp (k & Hk & Hf & Hmin). exists k. split_and!; [done| |].
  - by apply (folder_id_Permutation files).
  - intros j q Hj Hq Hfq. apply (Hmin j q Hj Hq).
    by apply (folder_id_Permutation files').
Qed.

Section Identifiers.

Variable files : list file.
Hypothesis unique_ids : NoDup (id <$> files).

Lemma spec_parent_ids c fc :
  files !! c = Some fc ->
  forall pid,
    first_parent_id files fc pid <->
    exists p fp, files !! p = Some fp /\ id fp = pid /\ spec_parent files c p.
Proof.
  intros Hc pid. split.
  - intros (k & Hk & (fp & Hin & Hid & Hf) & Hmin).
    apply list_elem_of_lookup in Hin as [p Hp]. exists p, fp.
    split_and!; [done|done|]. exists fc, fp, k. rewrite Hid.
    split_and!; [done|done|done|done|].
    intros j q Hj Hq Hfq. apply (Hmin j q Hj Hq). by apply folder_id_fetched.
  - intros (p & fp & Hp & <- & (fc' & fp' & k & Hc' & Hp' & Hf & Hk & Hmin)).
    rewrite Hc in Hc'. injection Hc' as <-. rewrite Hp in Hp'. injection Hp' as <-.
    exists k. split_and!; [done| |].
    + exists fp. split_and!; [by eapply list_elem_of_lookup_2|done|done].
    + intros j q Hj Hq Hfq. apply (Hmin j q Hj Hq). by apply folder_id_fetched.
Qed.

Lemma built_attached_ids out tree w cid pid :
  built files out (length files) tree w ->
  attached_ids files w cid pid <->
  exists fc, fc ∈ files /\ id fc = cid /\ first_parent_id files fc pid.
Proof.
  intros Hb. split.
  - intros (c & p & fc & fp & Hc & Hp & <- & <- & Hcp).
    exists fc. split_and!; [by eapply list_elem_of_lookup_2|done|].
    apply (spec_parent_ids c fc Hc). exists p, fp. split_and!; [done|done|].
    apply (built_child_of _ _ _ _ _ _ Hb) in Hcp as [? ?]. by apply parent_of_spec.
  - intros (fc & Hin & <- & Hf). apply list_elem_of_lookup in Hin as [c Hc].
    apply (spec_parent_ids c fc Hc) in Hf as (p & fp & Hp & <- & Hs).
    exists c, p, fc, fp. split_and!; [done|done|done|done|].
    apply (built_child_of _ _ _ _ _ _ Hb).
    pose proof (lookup_lt_Some _ _ _ Hc). split; [|done]. by apply parent_of_spec.
Qed.

Lemma built_root_ids out tree w i :
  built files out (length files) tree w ->
  i ∈ tree.*1 <->
  exists fc, fc ∈ files /\ id fc = i /\ forall pid, ~ first_parent_id files fc pid.
Proof.
  intros Hb. rewrite (built_tree _ _ _ _ _ Hb). split.
  - intros ([i' c] & -> & Hin)%list_elem_of_fmap.
    apply roots_elem in Hin as (-> & Hpar & Hc). simpl.
    destruct (lookup_lt_is_Some_2 files c Hc) as [fc Hfc].
    rewrite (record_lookup _ _ _ Hfc). exists fc.
    split_and!; [by eapply list_elem_of_lookup_2|done|].
    intros pid Hf. apply (spec_parent_ids c fc Hfc) in Hf as (p & fp & _ & _ & Hs).
    apply parent_of_spec in Hs; [congruence|done|done].
  - intros (fc & Hin & <- & Hnone). apply list_elem_of_lookup in Hin as [c Hc].
    apply list_elem_of_fmap. exists (id fc, c). split; [done|].
    apply roots_elem. rewrite (record_lookup _ _ _ Hc).
    pose proof (lookup_lt_Some _ _ _ Hc). split_and!; [done| |done].
    destruct (parent_of files c) as [p|] eqn:Ep; [|done].
    apply parent_of_spec in Ep; [|done|done].
    pose proof Ep as (fc' & fp & _ & _ & Hp & _).
    destruct (Hnone (id fp)). apply (spec_parent_ids c fc Hc). by exists p, fp.
Qed.

End Identifiers.

(** When the builder completes a batch with unique identifiers and a
    permutation of it, the two builds attach the same identifiers to the
    same identifiers and have the same top-level identifiers. *)
Theorem build_fetch_order files files' tree w tree' w' :
  files ≡ₚ files' ->
  NoDup (id <$> files) ->
  _build_tree files (fetched files) = Done (tree, w) ->
  _build_tree files' (fetched files') = Done (tree', w') ->
  (forall cid pid, attached_ids files w cid pid <-> attached_ids files' w' cid pid) /\
  (forall i, i ∈ tree.*1 <-> i ∈ tree'.*1).
Proof.
  intros Hp Hnd H H'.
  assert (Hnd' : NoDup (id <$> files')) by (by rewrite <- Hp).
  apply build_tree_built in H; [|done]. apply build_tree_built in H'; [|done].
  split.
  - intros cid pid.
    rewrite (built_attached_ids files Hnd _ _ _ _ _ H),
            (built_attached_ids files' Hnd' _ _ _ _ _ H').
    split; intros (fc & Hin & Hid & Hf); exists fc.
    + split_and!; [by rewrite <- Hp|done|]. by apply (first_parent_id_Permutation files).
    + split_and!; [by rewrite Hp|done|]. by apply (first_parent_id_Permutation files').
  - intros i.
    rewrite (built_root_ids files Hnd _ _ _ _ H), (built_root_ids files' Hnd' _ _ _ _ H').
    split; intros (fc & Hin & Hid & Hnone); exists fc.
    + split_and!; [by rewrite <- Hp|done|]. intros pid Hf. apply (Hnone pid).
      by apply (first_parent_id_Permutation files').
    + split_and!; [by rewrite Hp|done|]. intros pid Hf. apply (Hnone pid).
      by apply (first_parent_id_Permutation files).
Qed.

Lemma build_fetch_order_witness :
  (forall cid pid,
     attached_ids docs_batch
       (World [Deco (Some true) (Some [1]); Deco (Some false) (Some []);
               Deco (Some true) (Some [])] []) cid pid <->
     attached_ids docs_shuffled
       (World [Deco (Some true) (Some []); Deco (Some true) (Some [2]);
               Deco (Some false) (Some [])] []) cid pid) /\
  (forall i, i ∈ [(py "1", 0); (py "3", 2)].*1 <-> i ∈ [(py "3", 0); (py "1", 1)].*1).
Proof.
  refine (build_fetch_order docs_batch docs_shuffled _ (World _ []) _ (World _ [])
            _ _ _ _).
  - apply (Permutation_app_comm [_; _] [_]).
  - apply (bool_decide_unpack _). by vm_compute.
  - by vm_compute.
  - by vm_compute.
Defined.

(** ** Printing a built forest returns *)


(** When the builder completes a batch with unique identifiers, printing
    its forest raises nothing and returns within as many levels as the
    batch has records, leaving the heap as it was. *)
Theorem render_returns files tree w fuel :
  NoDup (id <$> files) ->
  _build_tree files (fetched files) = Done (tree, w) ->
  length files <= fuel ->
  print_forest files fuel tree w =
    Done (tt, World (heap w) (forest_lines files fuel)).
Proof.
  intros Hnd H Hfuel. apply build_tree_built in H; [|done].
  rewrite (print_forest_built files [] tree w fuel H Hfuel).
  by rewrite (built_stdout _ _ _ _ _ H).
Qed.

Lemma render_returns_witness :
  print_forest docs_batch 3 [(py "1", 0); (py "3", 2)]
    (World [Deco (Some true) (Some [1]); Deco (Some false) (Some []);
            Deco (Some true) (Some [])] []) =
  Done (tt, World [Deco (Some true) (Some [1]); Deco (Some false) (Some []);
                   Deco (Some true) (Some [])]
                  (forest_lines docs_batch 3)).
Proof.
  refine (render_returns docs_batch _ (World _ []) 3 _ _ _).
  - apply (bool_decide_unpack _). by vm_compute.
  - by vm_compute.
  - simpl. lia.
Defined.

(** ** The scenarios of the specification *)

(** Docs, then its file one level down, then Photos. *)
Example docs_scenario :
  list_files docs_batch 3 (fetched docs_batch) =
    Done (tt, World [Deco (Some true) (Some [1]); Deco (Some false) (Some []);
                     Deco (Some true) (Some [])]
                    (msg_building ::
                     (line_of docs_batch <$> [(0, 0); (1, 1); (2, 0)]))).
Proof. by vm_compute. Qed.

(** The line of a folder at the top level. *)
Example docs_line :
  line_of docs_batch (0, 0) =
    folder_icon ++ py " [Folder] Docs" ++ replicate 36 space ++ py " (ID: 1)".
Proof. by vm_compute. Qed.

(** The line of a file one level down. *)
Example report_line :
  line_of docs_batch (1, 1) =
    py "  | " ++ file_icon ++ py " [File]   report.txt" ++ replicate 30 space
      ++ py " (ID: 2)".
Proof. by vm_compute. Qed.

(** Folders before files, and the upper-case name before the lower-case
    one: [B], [b], [a]. *)
Example mixed_scenario :
  list_files mixed_batch 3 (fetched mixed_batch) =
    Done (tt, World [Deco (Some false) (Some []); Deco (Some true) (Some []);
                     Deco (Some true) (Some [])]
                    (msg_building ::
                     (line_of mixed_batch <$> [(2, 0); (1, 0); (0, 0)]))).
Proof. by vm_compute. Qed.

(** An empty batch is reported and nothing is built. *)
Example empty_scenario fuel :
  list_files [] fuel (fetched []) = Done (tt, World [] [msg_no_files]).
Proof. reflexivity. Qed.

(** With a repeated identifier the later record takes the place of the
    earlier one in the top-level dictionary. *)
Example repeated_identifier :
  _build_tree [plain "1" "a" []; plain "1" "b" []]
    (fetched [plain "1" "a" []; plain "1" "b" []]) =
  Done ([(py "1", 1)],
        World [Deco (Some false) (Some []); Deco (Some false) (Some [])] []).
Proof. by vm_compute. Qed.

(** * More of the code *)

(** ** When [_build_tree] returns and when it raises *)

Section Returns.

Variable files : list file.

Lemma obj_lookup w p d : heap w !! p = Some d -> obj w p = d.
Proof. intros H. unfold obj. by rewrite H. Qed.

Lemma attach_step fm k parent_id ps w p :
  fm !! parent_id = Some p ->
  attach fm k (parent_id :: ps) w =
    match is_folder (obj w p) with
    | Some true => (append_child p k ;;; ret true) w
    | Some false => attach fm k ps w
    | None => Raised (KeyError "is_folder")
    end.
Proof.
  intros E. cbn [attach]. rewrite E. unfold bind at 1. unfold getitem_is_folder.
  by destruct (is_folder (obj w p)) as [[]|].
Qed.

Lemma attach_outcome k ps : forall w,
  (forall p, p <= k -> exists l,
     heap w !! p = Some (Deco (Some (is_folder_type (record files p))) (Some l))) ->
  (forall p, k < p -> p < length files -> heap w !! p = Some undecorated) ->
  if scan_returns files k ps
  then exists b w', attach (file_map files) k ps w = Done (b, w')
  else attach (file_map files) k ps w = Raised (KeyError "is_folder").
Proof.
  induction ps as [|parent_id ps IH]; intros w Hdec Hundec.
  { simpl. unfold ret. eauto. }
  cbn [scan_returns].
  destruct (file_map files !! parent_id) as [p|] eqn:E.
  2:{ cbn [attach]. rewrite E. by apply IH. }
  rewrite (attach_step _ _ _ _ _ _ E).
  apply file_map_Some in E as (f & Hf & _). apply lookup_lt_Some in Hf.
  destruct (decide (p <= k)) as [Hle|Hgt].
  - destruct (Hdec p Hle) as [l Hl]. rewrite (obj_lookup _ _ _ Hl). cbn [is_folder].
    destruct (is_folder_type (record files p)); [|by apply IH].
    unfold bind, append_child, bind, getitem_children.
    rewrite (obj_lookup _ _ _ Hl). cbn [children]. unfold set_children, ret. eauto.
  - rewrite (obj_lookup _ _ _ (Hundec p ltac:(lia) Hf)). done.
Qed.

Lemma build_step_eval fm tree k f w :
  build_step fm tree k f w =
    match attach fm k (default [] (parents f))
            (World (alter (fun d => Deco (Some (bool_decide (mimeType f = folder_mime)))
                                      (children d)) k
                      (alter (fun d => Deco (is_folder d) (Some [])) k (heap w)))
                   (stdout w)) with
    | Done (true, w') => Done (tree, w')
    | Done (false, w') => Done (dict_set tree (id f) k, w')
    | Raised e => Raised e
    | OutOfFuel => OutOfFuel
    end.
Proof.
  unfold build_step, bind, set_children, set_is_folder, ret. cbn [heap stdout].
  by destruct (attach _ _ _ _) as [[[] ?]| |].
Qed.

Lemma build_step_outcome out k f tree w :
  files !! k = Some f ->
  built files out k tree w ->
  if scan_returns files k (parent_list files k)
  then exists tree' w', build_step (file_map files) tree k f w = Done (tree', w')
  else build_step (file_map files) tree k f w = Raised (KeyError "is_folder").
Proof.
  intros Hk [Hlen Hdone Htodo Htree Hord Hout].
  pose proof (lookup_lt_Some _ _ _ Hk) as Hkn.
  rewrite build_step_eval. set (w1 := World _ _).
  assert (Hh1 : forall p, p <= k -> exists l,
    heap w1 !! p = Some (Deco (Some (is_folder_type (record files p))) (Some l))).
  { intros p Hp. unfold w1. cbn [heap]. destruct (decide (p = k)) as [->|Hne].
    - rewrite !list_lookup_alter_eq, (Htodo k) by lia. simpl.
      rewrite (record_lookup _ _ _ Hk). eauto.
    - rewrite !list_lookup_alter_ne by done. rewrite Hdone by lia. eauto. }
  assert (Hh1' : forall p, k < p -> p < length files -> heap w1 !! p = Some undecorated).
  { intros p Hp Hpn. unfold w1. cbn [heap].
    rewrite !list_lookup_alter_ne by lia. apply Htodo; lia. }
  pose proof (attach_outcome k (parent_list files k) w1 Hh1 Hh1') as Ha.
  unfold parent_list in Ha at 2 3. rewrite (record_lookup _ _ _ Hk) in Ha.
  destruct (scan_returns files k (parent_list files k)).
  - destruct Ha as (b & w' & ->). destruct b; eauto.
  - by rewrite Ha.
Qed.

Hypothesis unique_ids : NoDup (id <$> files).

Lemma build_loop_outcome out l : forall pre tree w,
  files = pre ++ l ->
  built files out (length pre) tree w ->
  if forallb (fun c => scan_returns files c (parent_list files c))
       (seq (length pre) (length l))
  then exists tree' w',
    build_loop (file_map files) tree (length pre) l w = Done (tree', w')
  else build_loop (file_map files) tree (length pre) l w =
       Raised (KeyError "is_folder").
Proof.
  induction l as [|f l IH]; intros pre tree w Hfiles Hb; cbn [length seq forallb build_loop].
  { unfold ret. eauto. }
  assert (Hk : files !! length pre = Some f) by (by rewrite Hfiles, list_lookup_middle).
  pose proof (build_step_outcome out _ f tree w Hk Hb) as Hs.
  unfold bind. destruct (scan_returns files (length pre) _); cbn [andb].
  - destruct Hs as (tree1 & w1 & Hs). rewrite Hs.
    apply (build_step_built files unique_ids out) in Hs; [|done|done].
    specialize (IH (pre ++ [f]) tree1 w1).
    rewrite length_app, Nat.add_1_r in IH. apply IH; [|done].
    by rewrite <- app_assoc.
  - by rewrite Hs.
Qed.

End Returns.

Lemma build_outcome files :
  NoDup (id <$> files) ->
  _build_tree files (fetched files) =
    if buildable files
    then Done (roots files (length files), World (final_heap files) [])
    else Raised (KeyError "is_folder").
Proof.
  intros Hnd.
  assert (Hb0 : built files [] (length (@nil file)) [] (fetched files)).
  { split; cbn [heap stdout fetched]; try done.
    - apply length_replicate.
    - intros p Hp. simpl in Hp. lia.
    - intros p _ Hp. by apply lookup_replicate_2.
    - intros c p Hc. simpl in Hc. lia. }
  pose proof (build_loop_outcome files Hnd [] files [] [] (fetched files) eq_refl Hb0) as H.
  cbn [length] in H. fold (buildable files) in H. unfold _build_tree.
  destruct (buildable files); [|done].
  destruct H as (tree & w & H). rewrite H.
  pose proof (build_tree_built files Hnd [] tree w H) as Hb.
  rewrite (built_tree _ _ _ _ _ Hb). destruct w as [h out].
  pose proof (built_heap _ _ _ _ Hb) as Hh. pose proof (built_stdout _ _ _ _ _ Hb) as Ho.
  simpl in Hh, Ho. by rewrite Hh, Ho.
Qed.

(** For a batch with unique identifiers the builder either raises
    [KeyError] for ['is_folder'], or returns the tree of the attachment
    rule; which of the two is decided by the positions of the records
    alone. *)
Theorem build_tree_outcome files :
  NoDup (id <$> files) ->
  _build_tree files (fetched files) =
    if buildable files
    then Done (roots files (length files), World (final_heap files) [])
    else Raised (KeyError "is_folder").
Proof. apply build_outcome. Qed.

Lemma build_tree_outcome_witness :
  _build_tree docs_batch (fetched docs_batch) =
    if buildable docs_batch
    then Done (roots docs_batch (length docs_batch), World (final_heap docs_batch) [])
    else Raised (KeyError "is_folder").
Proof.
  apply (build_tree_outcome docs_batch). apply (bool_decide_unpack _). by vm_compute.
Defined.

Lemma forallb_false {A} (f : A -> bool) (l : list A) :
  forallb f l = false <-> exists x, In x l /\ f x = false.
Proof.
  induction l as [|a l IH]; simpl.
  - split; [done|]. by intros (? & [] & _).
  - destruct (f a) eqn:E; simpl.
    + rewrite IH. split.
      * intros (x & Hx & Hf). exists x. by split; [right|].
      * intros (x & [<-|Hx] & Hf); [congruence|by exists x].
    + split; [|done]. intros _. exists a. by split; [left|].
Qed.

Section Later.

Variable files : list file.
Hypothesis unique_ids : NoDup (id <$> files).

Lemma file_map_position parent_id p q fq :
  file_map files !! parent_id = Some p ->
  files !! q = Some fq -> id fq = parent_id -> q = p.
Proof.
  intros Hp Hq <-. rewrite (file_map_NoDup _ _ _ unique_ids Hq) in Hp. congruence.
Qed.

Lemma scan_returns_false c ps :
  scan_returns files c ps = false <->
  exists k p fp,
    ps !! k = Some (id fp) /\ files !! p = Some fp /\ c < p /\
    forall j q fq, j < k -> ps !! j = Some (id fq) -> files !! q = Some fq ->
      q <= c /\ is_folder_type fq = false.
Proof.
  induction ps as [|parent_id ps IH]; cbn [scan_returns].
  { split; [done|]. by intros (? & ? & ? & ? & _). }
  destruct (file_map files !! parent_id) as [p|] eqn:E.
  - pose proof E as (f & Hf & Hid)%file_map_Some.
    destruct (decide (p <= c)) as [Hle|Hgt].
    + destruct (is_folder_type (record files p)) eqn:Efold.
      * split; [done|]. intros (k & p' & fp & Hk & Hp' & Hlt & Hbefore).
        destruct k as [|k]; simpl in Hk.
        -- injection Hk as Hk. pose proof (file_map_position _ _ _ _ E Hp' (eq_sym Hk)). lia.
        -- destruct (Hbefore 0 p f) as [_ Hnf]; [lia|by rewrite Hid|done|].
           rewrite (record_lookup _ _ _ Hf) in Efold. congruence.
      * rewrite IH. split.
        -- intros (k & p' & fp & Hk & Hp' & Hlt & Hbefore). exists (S k), p', fp.
           split_and!; [done|done|done|]. intros [|j] q fq Hj Hjq Hq; simpl in Hjq.
           ++ injection Hjq as Hjq.
              pose proof (file_map_position _ _ _ _ E Hq (eq_sym Hjq)) as ->.
              rewrite Hf in Hq. injection Hq as <-.
              rewrite (record_lookup _ _ _ Hf) in Efold. done.
           ++ apply (Hbefore j); [lia|done|done].
        -- intros (k & p' & fp & Hk & Hp' & Hlt & Hbefore). destruct k as [|k]; simpl in Hk.
           ++ injection Hk as Hk.
              pose proof (file_map_position _ _ _ _ E Hp' (eq_sym Hk)). lia.
           ++ exists k, p', fp. split_and!; [done|done|done|].
              intros j q fq Hj Hjq Hq. apply (Hbefore (S j)); [lia|done|done].
    + split; [|done]. intros _. exists 0, p, f.
      split_and!; [by rewrite Hid|done|lia|]. intros; lia.
  - rewrite IH. split.
    + intros (k & p' & fp & Hk & Hp' & Hlt & Hbefore). exists (S k), p', fp.
      split_and!; [done|done|done|]. intros [|j] q fq Hj Hjq Hq; simpl in Hjq.
      * injection Hjq as Hjq. destruct (file_map_None files parent_id fq E); [|done].
        by eapply list_elem_of_lookup_2.
      * apply (Hbefore j); [lia|done|done].
    + intros (k & p' & fp & Hk & Hp' & Hlt & Hbefore). destruct k as [|k]; simpl in Hk.
      * injection Hk as Hk. destruct (file_map_None files parent_id fp E); [|done].
        by eapply list_elem_of_lookup_2.
      * exists k, p', fp. split_and!; [done|done|done|].
        intros j q fq Hj Hjq Hq. apply (Hbefore (S j)); [lia|done|done].
Qed.

Lemma buildable_false :
  buildable files = false <-> exists c, reaches_later files c.
Proof.
  unfold buildable. rewrite forallb_false. split.
  - intros (c & Hc & Hs). apply list_elem_of_In, elem_of_seq in Hc.
    destruct (lookup_lt_is_Some_2 files c) as [fc Hfc]; [lia|].
    apply scan_returns_false in Hs as (k & p & fp & Hk & Hp & Hlt & Hbefore).
    unfold parent_list in Hk, Hbefore. rewrite (record_lookup _ _ _ Hfc) in Hk, Hbefore.
    by exists c, fc, k, p, fp.
  - intros (c & fc & k & p & fp & Hc & Hk & Hp & Hlt & Hbefore). exists c. split.
    + apply list_elem_of_In, elem_of_seq. apply lookup_lt_Some in Hc. lia.
    + apply scan_returns_false. exists k, p, fp. unfold parent_list.
      by rewrite (record_lookup _ _ _ Hc).
Qed.

End Later.

(** For a batch with unique identifiers the builder raises exactly when
    some record's parent list names a record fetched after it, before any
    entry that resolves to a Folder fetched at or before it. *)
Theorem build_raises_iff files :
  NoDup (id <$> files) ->
  _build_tree files (fetched files) = Raised (KeyError "is_folder") <->
  exists c, reaches_later files c.
Proof.
  intros Hnd. rewrite <- (buildable_false files Hnd), (build_outcome files Hnd).
  by destruct (buildable files).
Qed.

Lemma build_raises_iff_witness :
  _build_tree child_first (fetched child_first) = Raised (KeyError "is_folder") <->
  exists c, reaches_later child_first c.
Proof.
  apply (build_raises_iff child_first). apply (bool_decide_unpack _). by vm_compute.
Defined.

(** A batch with unique identifiers in which every record comes after
    the fetched records its parent list names, or is one of them, is
    built: the builder returns the tree of the attachment rule. *)
Theorem parents_first_builds files :
  NoDup (id <$> files) ->
  (forall c fc p fp,
     files !! c = Some fc -> files !! p = Some fp ->
     id fp ∈ default [] (parents fc) -> p <= c) ->
  _build_tree files (fetched files) =
    Done (roots files (length files), World (final_heap files) []).
Proof.
  intros Hnd Hfirst. rewrite (build_outcome files Hnd).
  destruct (buildable files) eqn:E; [done|].
  apply (buildable_false files Hnd) in E
    as (c & fc & k & p & fp & Hc & Hk & Hp & Hlt & _).
  pose proof (Hfirst c fc p fp Hc Hp ltac:(by eapply list_elem_of_lookup_2)). lia.
Qed.

Lemma parents_first_builds_witness :
  _build_tree parent_first (fetched parent_first) =
    Done (roots parent_first (length parent_first), World (final_heap parent_first) []).
Proof.
  apply (parents_first_builds parent_first).
  - apply (bool_decide_unpack _). by vm_compute.
  - intros c fc p fp Hc Hp Hin. apply lookup_lt_Some in Hp. simpl in Hp.
    destruct c as [|c]; [|lia].
    injection Hc as <-. simpl in Hin. by apply elem_of_nil in Hin.
Defined.

(** ** The columns of a line *)

Lemma str_mul_length s n : length (str_mul s n) = n * length s.
Proof. induction n as [|n IH]; simpl; [done|]. rewrite length_app, IH. lia. Qed.

Lemma ljust_length n s : length (ljust n s) = n `max` length s.
Proof. unfold ljust. rewrite length_app, length_replicate. lia. Qed.

Lemma ljust_slice_length n s : length (ljust n (slice_to n s)) = n.
Proof. rewrite ljust_length. unfold slice_to. rewrite length_take. lia. Qed.

(** Whatever the name of a record, its line has the identifier in the
    same column for its level: the name is cut or padded to 40 code
    points, so that 57 code points come between the indentation, of four
    code points a level, and the identifier, which the closing bracket
    follows. *)
Theorem format_line_columns files level folder p :
  length (format_line files level folder p) =
    4 * level + 58 + length (id (record files p)) /\
  take (4 * level) (format_line files level folder p) = str_mul (py "  | ") level /\
  drop (4 * level + 57) (format_line files level folder p) =
    id (record files p) ++ py ")".
Proof.
  unfold format_line.
  set (indent := str_mul (py "  | ") level).
  set (icon := if folder then folder_icon else file_icon).
  set (type_str := if folder then py "[Folder]" else py "[File]").
  set (shown := ljust 40 (slice_to 40 (name (record files p)))).
  assert (Hi : length indent = 4 * level).
  { unfold indent. rewrite str_mul_length. simpl. lia. }
  assert (Hc : length icon = 1) by (unfold icon; by destruct folder).
  assert (Ht : length (ljust 8 type_str) = 8) by (unfold type_str; by destruct folder).
  assert (Hn : length shown = 40) by apply ljust_slice_length.
  split_and!.
  - rewrite !length_app, Hi, Hc, Ht, Hn. simpl. lia.
  - rewrite <- Hi. by rewrite take_app_length.
  - replace (indent ++ icon ++ py " " ++ ljust 8 type_str ++ py " " ++ shown
               ++ py " (ID: " ++ id (record files p) ++ py ")")
      with ((indent ++ icon ++ py " " ++ ljust 8 type_str ++ py " " ++ shown
               ++ py " (ID: ") ++ id (record files p) ++ py ")")
      by (by rewrite <- !(assoc_L (++))).
    apply drop_app_length'. rewrite !length_app, Hi, Hc, Ht, Hn. simpl. lia.
Qed.

(** ** Indentation *)

Lemma bind_split {A B} (g : A -> list B) (l : list A) : forall pre x post,
  l ≫= g = pre ++ x :: post ->
  exists l1 a l2 pa posta,
    l = l1 ++ a :: l2 /\ g a = pa ++ x :: posta /\
    pre = (l1 ≫= g) ++ pa /\ post = posta ++ (l2 ≫= g).
Proof.
  induction l as [|a l IH]; intros pre x post H.
  - by destruct pre.
  - rewrite bind_cons in H. apply app_eq_app in H as [m [[Hg Hrest]|[Hpre Hrest]]].
    + destruct m as [|y m].
      * rewrite app_nil_r in Hg. simpl in Hrest.
        destruct (IH [] x post) as (l1 & b & l2 & pa & posta & -> & Hb & Hp & ->);
          [by rewrite <- Hrest|].
        exists (a :: l1), b, l2, pa, posta. split_and!; [done|done| |done].
        rewrite bind_cons, <- Hg, <- (assoc_L (++)), <- Hp. by rewrite app_nil_r.
      * injection Hrest as <- ->.
        exists [], a, l, pre, m. by split_and!.
    + destruct (IH m x post) as (l1 & b & l2 & pa & posta & -> & Hb & Hp & ->);
        [done|].
      exists (a :: l1), b, l2, pa, posta. split_and!; [done|done| |done].
      by rewrite bind_cons, Hpre, Hp, (assoc_L (++)).
Qed.

Section Nesting.

Variable files : list file.

Lemma walk_ge fuel : forall p b x, x ∈ walk files fuel p b -> b <= x.2.
Proof.
  induction fuel as [|fuel IH]; intros p b x Hx; [by apply elem_of_nil in Hx|].
  cbn [walk] in Hx. apply elem_of_cons in Hx as [->|Hx]; [done|].
  apply list_elem_of_bind in Hx as (c & Hx & _). apply IH in Hx. lia.
Qed.

Lemma walk_nested fuel : forall r b pre c level post,
  walk files fuel r b = pre ++ (c, level) :: post ->
  (pre = [] /\ c = r /\ level = b) \/
  exists l pre1 p mid,
    level = S l /\ pre = pre1 ++ (p, l) :: mid /\
    (parent_of files c = Some p /\ c < length files) /\
    forall x, x ∈ mid -> l < x.2.
Proof.
  induction fuel as [|fuel IH]; intros r b pre c level post H; [by destruct pre|].
  cbn [walk] in H. destruct pre as [|v pre]; simpl in H.
  { injection H as <- <- _. by left. }
  injection H as <- H. right.
  apply bind_split in H as (l1 & a & l2 & pa & posta & Hl & Ha & -> & _).
  assert (Hdeeper : forall x, x ∈ l1 ≫= (fun c0 => walk files fuel c0 (b + 1)) -> b < x.2).
  { intros x (c0 & Hx & _)%list_elem_of_bind. apply walk_ge in Hx. lia. }
  destruct (IH _ _ _ _ _ _ Ha) as [(-> & -> & ->)|(l & pre1 & p & mid & -> & -> & Hp & Hmid)].
  - exists b, [], r, (l1 ≫= (fun c0 => walk files fuel c0 (b + 1))).
    split; [lia|]. split; [by rewrite app_nil_r|]. split; [|done].
    apply kids_elem. rewrite <- (order_Permutation files), Hl.
    apply elem_of_app. right. left.
  - exists l, ((r, b) :: (l1 ≫= (fun c0 => walk files fuel c0 (b + 1))) ++ pre1), p, mid.
    split; [done|]. split; [|by split].
    rewrite <- app_comm_cons. f_equal. apply (assoc_L (++)).
Qed.

Lemma visits_nested fuel pre c level post :
  visits files fuel = pre ++ (c, level) :: post ->
  match level with
  | O => c ∈ top files
  | S l =>
      exists pre1 p mid,
        pre = pre1 ++ (p, l) :: mid /\
        (parent_of files c = Some p /\ c < length files) /\
        forall x, x ∈ mid -> l < x.2
  end.
Proof.
  unfold visits. intros H.
  apply bind_split in H as (l1 & r & l2 & pa & posta & Hl & Hr & -> & _).
  destruct (walk_nested _ _ _ _ _ _ _ Hr)
    as [(-> & -> & ->)|(l & pre1 & p & mid & -> & -> & Hp & Hmid)].
  - rewrite <- (order_Permutation files), Hl. apply elem_of_app. right. left.
  - exists ((l1 ≫= (fun r0 => walk files fuel r0 0)) ++ pre1), p, mid.
    split; [|by split]. apply (assoc_L (++)).
Qed.

End Nesting.

(** The indentation of a listing shows the forest that was built: for a
    batch with unique identifiers that the builder completes, a line
    without indentation is the line of a top-level record, and a line
    indented one level more than some line above it is the line of
    a record in the children list of the nearest such line. *)
Theorem render_nested files tree w fuel :
  NoDup (id <$> files) ->
  _build_tree files (fetched files) = Done (tree, w) ->
  length files <= fuel ->
  print_forest files fuel tree w =
    Done (tt, World (heap w)
               (match visits files fuel with
                | [] => [msg_no_roots]
                | vs => line_of files <$> vs
                end)) /\
  nested tree w (visits files fuel).
Proof.
  intros Hnd H Hfuel. pose proof (build_tree_built files Hnd [] tree w H) as Hb. split.
  - rewrite (print_forest_built files [] tree w fuel Hb Hfuel).
    rewrite (built_stdout _ _ _ _ _ Hb). cbn [app]. do 3 f_equal.
    unfold forest_lines, visits.
    destruct (order files (top files)) as [|r l] eqn:Eo; [done|].
    destruct fuel as [|fuel]; [|done].
    assert (Hr : r ∈ top files).
    { rewrite <- (order_Permutation files), Eo. left. }
    apply top_elem in Hr as [_ Hr]. lia.
  - intros pre c level post Hvs. apply visits_nested in Hvs.
    destruct level as [|l].
    + apply (built_top files [] tree w c Hb). by apply top_elem.
    + destruct Hvs as (pre1 & p & mid & -> & Hp & Hmid).
      exists pre1, p, mid. split_and!; [done| |done].
      by apply (built_child_of files [] tree w c p Hb).
Qed.

Lemma render_nested_witness :
  print_forest docs_batch 3 [(py "1", 0); (py "3", 2)]
    (World (final_heap docs_batch) []) =
    Done (tt, World (final_heap docs_batch)
               (match visits docs_batch 3 with
                | [] => [msg_no_roots]
                | vs => line_of docs_batch <$> vs
                end)) /\
  nested [(py "1", 0); (py "3", 2)] (World (final_heap docs_batch) [])
    (visits docs_batch 3).
Proof.
  refine (render_nested docs_batch _ (World _ []) 3 _ _ _).
  - apply (bool_decide_unpack _). by vm_compute.
  - by vm_compute.
  - simpl. lia.
Defined.

(** * The methods that talk to the service *)

Section Talking.

Variable service : option drive.

Lemma say_eval line s :
  say line s =
    Returns tt (Session (World (heap (state s)) (stdout (state s) ++ [line])) (sent s)).
Proof. done. Qed.

Lemma fetch_eval s :
  _fetch_all_files service s =
    Returns (next_batch service s)
      (Session (World (heap (fetched (next_batch service s)))
                  (stdout (state s) ++ fetch_lines service s))
         (sent s ++ fetch_requests service)).
Proof.
  unfold _fetch_all_files, next_batch, fetch_lines, fetch_requests.
  destruct service as [d|].
  - unfold api_bind. rewrite say_eval. unfold execute. cbn [sent state heap stdout].
    destruct (d (sent s) files_list) as [results|e].
    + done.
    + rewrite say_eval. cbn [sent state heap stdout]. unfold receive.
      cbn [sent state heap stdout]. by rewrite <- (assoc_L (++)).
  - unfold receive. by rewrite !app_nil_r.
Qed.

End Talking.

(** ** [list_files], with its fetch *)

Lemma appends_list_files files fuel : appends (list_files files fuel).
Proof.
  unfold list_files. destruct files as [|f l]; [auto with py|].
  apply appends_bind; [auto with py|]. intros _.
  apply appends_bind; [apply appends_build_tree|]. intros tree.
  apply appends_print_forest.
Qed.

Lemma list_files_eval files fuel out :
  NoDup (id <$> files) -> length files <= fuel ->
  list_files files fuel (World (heap (fetched files)) out) =
    if buildable files
    then Done (tt, World (final_heap files) (out ++ listing files fuel))
    else Raised (KeyError "is_folder").
Proof.
  intros Hnd Hfuel. rewrite appends_list_files.
  change (World (heap (fetched files)) []) with (fetched files).
  destruct (decide (files = [])) as [->|Hne]; [done|].
  pose proof (build_outcome files Hnd) as H.
  destruct (buildable files).
  - pose proof (build_tree_built files Hnd [] _ _ H) as Hb.
    rewrite (list_files_built files _ _ fuel Hne H Hb Hfuel).
    cbn [prepend heap stdout]. by destruct files.
  - by rewrite (list_files_raises files _ fuel Hne H).
Qed.

(** Listing, from the request on, for a reply whose records have unique
    identifiers: the one request sent is the listing request; a failure
    of the request is printed and never raised; without records, the
    notice that there are none is all that follows; with records, the
    forest is printed behind its notice, or the builder raises [KeyError]
    for ['is_folder']. *)
Theorem list_files_outcome service fuel s :
  NoDup (id <$> next_batch service s) ->
  length (next_batch service s) <= fuel ->
  DriveManager_list_files service fuel s =
    if buildable (next_batch service s)
    then Returns tt
           (Session
              (World (final_heap (next_batch service s))
                 (stdout (state s) ++ fetch_lines service s
                    ++ listing (next_batch service s) fuel))
              (sent s ++ fetch_requests service))
    else Raises (Key (KeyError "is_folder")) (sent s ++ fetch_requests service).
Proof.
  intros Hnd Hfuel. unfold DriveManager_list_files, api_bind.
  rewrite fetch_eval. unfold lift. cbn [state sent].
  rewrite (list_files_eval _ fuel _ Hnd Hfuel).
  destruct (buildable (next_batch service s)); [|done].
  by rewrite <- (assoc_L (++)).
Qed.

Lemma list_files_outcome_witness :
  DriveManager_list_files (Some docs_drive) 3 (Session (World [] []) []) =
    Returns tt
      (Session
         (World (final_heap docs_batch)
            ([] ++ [msg_fetching] ++ msg_building :: forest_lines docs_batch 3))
         [files_list]).
Proof.
  apply (list_files_outcome (Some docs_drive) 3 (Session (World [] []) [])).
  - apply (bool_decide_unpack _). by vm_compute.
  - simpl. lia.
Defined.

(** ** [sort_demo] *)

Lemma movable_test f :
  bool_decide (mimeType f <> folder_mime) && truthy_list (parents f) = true <->
  movable f.
Proof.
  unfold movable. rewrite andb_true_iff, bool_decide_eq_true. split.
  - intros [Hm Hp]. split; [done|].
    destruct (parents f) as [[|cur ps]|]; [done| |done]. by exists cur, ps.
  - intros [Hm (cur & ps & ->)]. done.
Qed.

Lemma file_to_move_Some l f :
  file_to_move l = Some f ->
  exists before after,
    l = before ++ f :: after /\ movable f /\ forall g, g ∈ before -> ~ movable g.
Proof.
  induction l as [|item rest IH]; [done|]. cbn [file_to_move].
  destruct (bool_decide (mimeType item <> folder_mime) && truthy_list (parents item))
    eqn:E.
  - intros [= <-]. exists [], rest. split_and!; [done|by apply movable_test|].
    intros g Hg. by apply elem_of_nil in Hg.
  - intros (before & after & -> & Hf & Hbefore)%IH.
    exists (item :: before), after. split_and!; [done|done|].
    intros g [->|Hg]%elem_of_cons; [|by apply Hbefore].
    rewrite <- movable_test, E. done.
Qed.

Lemma file_to_move_None l :
  file_to_move l = None <-> forall g, g ∈ l -> ~ movable g.
Proof.
  induction l as [|item rest IH]; cbn [file_to_move].
  - split; [|done]. intros _ g Hg. by apply elem_of_nil in Hg.
  - destruct (bool_decide (mimeType item <> folder_mime) && truthy_list (parents item))
      eqn:E.
    + split; [done|]. intros H. destruct (H item); [left|by apply movable_test].
    + rewrite IH. split.
      * intros H g [->|Hg]%elem_of_cons; [|by apply H].
        rewrite <- movable_test, E. done.
      * intros H g Hg. apply H. by right.
Qed.

Section Sorting.

Variable d : drive.

Lemma find_eval folder_name s :
  find_or_create_folder (Some d) folder_name s =
    let q := files_search (folder_query folder_name) in
    let c := files_create folder_name folder_mime in
    match d (sent s) q with
    | Failed e => Raises (Error e) (sent s ++ [q])
    | Returned results =>
        match default [] (res_files results) with
        | f :: _ => Returns (Some (id f)) (Session (state s) (sent s ++ [q]))
        | [] =>
            match d (sent s ++ [q]) c with
            | Failed e => Raises (Error e) (sent s ++ [q; c])
            | Returned folder =>
                Returns (res_id folder) (Session (state s) (sent s ++ [q; c]))
            end
        end
    end.
Proof.
  unfold find_or_create_folder, api_bind, execute, raise, api_ret. cbn [sent state].
  destruct (d (sent s) _) as [results|e]; [|done].
  destruct (default [] (res_files results)) as [|f l]; [|done]. cbn [sent state].
  destruct (d (sent s ++ _) _) as [folder|e]; by rewrite <- (assoc_L (++)).
Qed.

Lemma move_eval file_id current_parent_id new_parent_id s :
  _move_file (Some d) file_id current_parent_id new_parent_id s =
    let g := files_get file_id in
    let said line := World (heap (state s)) (stdout (state s) ++ line) in
    match d (sent s) g with
    | Failed e => Returns tt (Session (said [msg_move_error e]) (sent s ++ [g]))
    | Returned file =>
        match res_parents file with
        | None => Returns tt (Session (said [msg_move_error join_None_text]) (sent s ++ [g]))
        | Some ps =>
            let u := files_update file_id new_parent_id (join (py ",") ps) in
            let moving := msg_moving (res_name file) new_parent_id in
            match d (sent s ++ [g]) u with
            | Failed e =>
                Returns tt (Session (said [moving; msg_move_error e]) (sent s ++ [g; u]))
            | Returned _ =>
                Returns tt
                  (Session (said [moving; msg_moved new_parent_id]) (sent s ++ [g; u]))
            end
        end
    end.
Proof.
  unfold _move_file, api_bind, execute. cbn [sent state].
  destruct (d (sent s) _) as [file|e]; [|by rewrite say_eval].
  destruct (res_parents file) as [ps|]; [|by rewrite say_eval].
  rewrite say_eval. cbn [sent state heap stdout].
  destruct (d (sent s ++ _) _) as [moved|e]; rewrite say_eval; cbn [sent state heap stdout];
    by rewrite <- !(assoc_L (++)).
Qed.

End Sorting.

Section Demo.

Variable d : drive.

Lemma sort_demo_eval s :
  sort_demo (Some d) s =
    let batch := next_batch (Some d) s in
    let s1 :=
      Session
        (World (heap (fetched batch))
           (stdout (state s) ++ msg_sorting :: fetch_lines (Some d) s))
        (sent s ++ [files_list]) in
    match file_to_move batch with
    | None => say msg_no_candidate s1
    | Some f =>
        match parents f with
        | None => Raises (Key (KeyError "parents")) (sent s1)
        | Some [] => Raises IndexError (sent s1)
        | Some (cur :: _) =>
            match
              find_or_create_folder (Some d) TARGET_FOLDER_NAME
                (Session
                   (World (heap (state s1)) (stdout (state s1) ++ [msg_selected (name f)]))
                   (sent s1))
            with
            | Returns (Some (c :: t)) s3 =>
                if bool_decide (cur <> c :: t)
                then _move_file (Some d) (id f) cur (c :: t) s3
                else say msg_in_target s3
            | Returns _ s3 => Returns tt s3
            | Raises e requests => Raises e requests
            | Exhausted => Exhausted
            end
        end
    end.
Proof.
  unfold sort_demo. unfold api_bind at 1. rewrite say_eval.
  unfold api_bind at 1. rewrite fetch_eval. cbn [sent state heap stdout].
  change (next_batch (Some d) (Session _ (sent s))) with (next_batch (Some d) s).
  change (fetch_lines (Some d) (Session _ (sent s))) with (fetch_lines (Some d) s).
  cbn zeta. rewrite <- (assoc_L (++)). cbn [app].
  destruct (file_to_move (next_batch (Some d) s)) as [f|]; [|done].
  unfold api_bind at 1.
  destruct (parents f) as [[|cur ps]|]; [done| |done].
  unfold api_ret at 1. unfold api_bind at 1. rewrite say_eval.
  cbn [sent state heap stdout]. unfold api_bind at 1.
  destruct (find_or_create_folder _ _ _) as [[[|c t]|] s3|e r|]; try done.
  by destruct (bool_decide (cur <> c :: t)).
Qed.

End Demo.

Lemma update_free_app (l l' : list request) :
  (forall r, r ∈ l ++ l' -> is_update r = false) <->
  (forall r, r ∈ l -> is_update r = false) /\ (forall r, r ∈ l' -> is_update r = false).
Proof.
  split.
  - intros H. split; intros r Hr; apply H, elem_of_app; auto.
  - intros [H1 H2] r [Hr|Hr]%elem_of_app; auto.
Qed.

Lemma last_update (l pre post : list request) (u u' : request) :
  (forall r, r ∈ l -> is_update r = false) -> is_update u' = true ->
  l ++ [u] = pre ++ u' :: post -> pre = l /\ post = [] /\ u = u'.
Proof.
  revert pre. induction l as [|x l IH]; intros pre Hl Hu H.
  - destruct pre as [|y pre]; simpl in H.
    + by injection H as -> <-.
    + injection H as _ H. by destruct pre.
  - destruct pre as [|y pre]; simpl in H.
    + injection H as -> _. rewrite (Hl u') in Hu; [done|left].
    + injection H as <- H. destruct (IH pre) as (-> & -> & ->); [|done|done|done].
      intros r Hr. apply Hl. by right.
Qed.

Lemma no_update (l pre post : list request) (u : request) :
  (forall r, r ∈ l -> is_update r = false) -> is_update u = true ->
  l <> pre ++ u :: post.
Proof.
  intros Hl Hu ->. rewrite (Hl u) in Hu; [done|].
  apply elem_of_app. right. left.
Qed.

Lemma update_free (l : list request) :
  forallb (fun r => negb (is_update r)) l = true ->
  forall r, r ∈ l -> is_update r = false.
Proof.
  rewrite forallb_forall. intros H r Hr%list_elem_of_In. apply H in Hr.
  by destruct (is_update r).
Qed.

Section Requests.

Variable d : drive.

(** The requests of [sort_demo]: none of them moves anything, or the last
    of them moves the first record that may be moved. *)
Lemma sort_demo_requests s requests :
  ended (sort_demo (Some d) s) requests ->
  exists new,
    requests = sent s ++ new /\
    ((forall r, r ∈ new -> is_update r = false) \/
     exists l f cur ps target gone,
       new = l ++ [files_update (id f) target gone] /\
       (forall r, r ∈ l -> is_update r = false) /\
       first_movable (next_batch (Some d) s) f /\
       parents f = Some (cur :: ps) /\ target <> [] /\ target <> cur).
Proof.
  rewrite sort_demo_eval. cbn zeta.
  destruct (file_to_move (next_batch (Some d) s)) as [f|] eqn:Ef.
  2:{ rewrite say_eval. intros [(a & s' & [= _ <-] & <-)|(e & [=])].
      exists [files_list]. split; [done|]. left. by apply update_free. }
  pose proof (file_to_move_Some _ _ Ef) as Hfirst.
  pose proof Hfirst as (_ & _ & _ & (_ & cur & ps & Hps) & _). rewrite Hps.
  rewrite find_eval. cbn zeta. cbn [sent state heap stdout].
  destruct (d _ (files_search _)) as [results|e].
  2:{ intros [(a & s' & [=] & _)|(e' & [= _ <-])].
      exists [files_list; files_search (folder_query TARGET_FOLDER_NAME)].
      split; [by rewrite <- (assoc_L (++))|]. left. by apply update_free. }
  assert (Hend : forall (target : option pystr) (s3 : session) (l3 : list request),
    sent s3 = sent s ++ l3 -> (forall r, r ∈ l3 -> is_update r = false) ->
    ended
      match target with
      | Some (c :: t) =>
          if bool_decide (cur <> c :: t)
          then _move_file (Some d) (id f) cur (c :: t) s3
          else say msg_in_target s3
      | _ => Returns tt s3
      end requests ->
    exists new,
      requests = sent s ++ new /\
      ((forall r, r ∈ new -> is_update r = false) \/
       exists l f cur ps target gone,
         new = l ++ [files_update (id f) target gone] /\
         (forall r, r ∈ l -> is_update r = false) /\
         first_movable (next_batch (Some d) s) f /\
         parents f = Some (cur :: ps) /\ target <> [] /\ target <> cur)).
  { intros target s3 l3 Hs3 Hl3.
    assert (Hsame : forall w,
      ended (Returns tt (Session w (sent s3))) requests ->
      exists new,
        requests = sent s ++ new /\
        ((forall r, r ∈ new -> is_update r = false) \/
         exists l f cur ps target gone,
           new = l ++ [files_update (id f) target gone] /\
           (forall r, r ∈ l -> is_update r = false) /\
           first_movable (next_batch (Some d) s) f /\
           parents f = Some (cur :: ps) /\ target <> [] /\ target <> cur)).
    { intros w [(a & s' & [= _ <-] & <-)|(e' & [=])]. exists l3. split; [done|by left]. }
    destruct target as [[|c t]|]; [by destruct s3; apply Hsame| |by destruct s3; apply Hsame].
    destruct (bool_decide (cur <> c :: t)) eqn:Ecur; [|by rewrite say_eval; apply Hsame].
    apply bool_decide_eq_true in Ecur.
    rewrite move_eval. cbn zeta.
    assert (Hget : forall w,
      ended (Returns tt (Session w (sent s3 ++ [files_get (id f)]))) requests ->
      exists new,
        requests = sent s ++ new /\
        ((forall r, r ∈ new -> is_update r = false) \/
         exists l f cur ps target gone,
           new = l ++ [files_update (id f) target gone] /\
           (forall r, r ∈ l -> is_update r = false) /\
           first_movable (next_batch (Some d) s) f /\
           parents f = Some (cur :: ps) /\ target <> [] /\ target <> cur)).
    { intros w [(a & s' & [= _ <-] & <-)|(e' & [=])]. exists (l3 ++ [files_get (id f)]).
      cbn [sent]. split; [by rewrite Hs3, <- (assoc_L (++))|]. left.
      apply update_free_app. split; [done|]. by apply update_free. }
    destruct (d (sent s3) _) as [file|e]; [|apply Hget].
    destruct (res_parents file) as [gone|]; [|apply Hget].
    assert (Hmoved : forall w,
      ended (Returns tt
               (Session w
                  (sent s3 ++ [files_get (id f);
                               files_update (id f) (c :: t) (join (py ",") gone)])))
        requests ->
      exists new,
        requests = sent s ++ new /\
        ((forall r, r ∈ new -> is_update r = false) \/
         exists l f cur ps target gone,
           new = l ++ [files_update (id f) target gone] /\
           (forall r, r ∈ l -> is_update r = false) /\
           first_movable (next_batch (Some d) s) f /\
           parents f = Some (cur :: ps) /\ target <> [] /\ target <> cur)).
    { intros w [(a & s' & [= _ <-] & <-)|(e' & [=])].
      eexists (l3 ++ [files_get (id f); _]).
      cbn [sent]. split; [by rewrite Hs3, <- (assoc_L (++))|]. right.
      exists (l3 ++ [files_get (id f)]), f, cur, ps, (c :: t), (join (py ",") gone).
      split_and!; [by rewrite <- (assoc_L (++))| |done|done|done|congruence].
      apply update_free_app. split; [done|]. by apply update_free. }
    destruct (d (sent s3 ++ _) _) as [moved|e]; apply Hmoved. }
  set (q := files_search (folder_query TARGET_FOLDER_NAME)).
  set (c := files_create TARGET_FOLDER_NAME folder_mime).
  destruct (default [] (res_files results)) as [|found l].
  - destruct (d _ c) as [folder|e].
    + apply (Hend (res_id folder) (Session _ _) [files_list; q; c]); [|by apply update_free].
      cbn [sent]. by rewrite <- (assoc_L (++)).
    + intros [(a & s' & [=] & _)|(e' & [= _ <-])].
      exists [files_list; q; c]. split; [by rewrite <- (assoc_L (++))|].
      left. by apply update_free.
  - apply (Hend (Some (id found)) (Session _ _) [files_list; q]); [|by apply update_free].
    cbn [sent]. by rewrite <- (assoc_L (++)).
Qed.

End Requests.

(** An exception leaves [sort_demo] only when the search for the archive
    folder, or its creation, fails: it is the exception of that request,
    the last one sent, and nothing was moved.  A failure of the listing
    request or of the move is printed instead, and the first parent of the
    record picked is always there to be read. *)
Theorem sort_demo_raises service s e requests :
  sort_demo service s = Raises e requests ->
  exists d text before r,
    service = Some d /\ e = Error text /\ requests = before ++ [r] /\
    d before r = Failed text /\
    (r = files_search (folder_query TARGET_FOLDER_NAME) \/
     r = files_create TARGET_FOLDER_NAME folder_mime) /\
    forall a b c, files_update a b c ∈ requests -> files_update a b c ∈ sent s.
Proof.
  destruct service as [d|]; [|done].
  rewrite sort_demo_eval. cbn zeta.
  destruct (file_to_move (next_batch (Some d) s)) as [f|] eqn:Ef; [|done].
  pose proof (file_to_move_Some _ _ Ef) as (_ & _ & _ & (_ & cur & ps & Hps) & _).
  rewrite Hps, find_eval. cbn zeta. cbn [sent state heap stdout].
  set (q := files_search (folder_query TARGET_FOLDER_NAME)).
  set (c := files_create TARGET_FOLDER_NAME folder_mime).
  assert (Hmove : forall target s3,
    _move_file (Some d) (id f) cur target s3 <> Raises e requests).
  { intros target s3. rewrite move_eval. cbn zeta.
    destruct (d (sent s3) _) as [file|?]; [|done].
    destruct (res_parents file) as [gone|]; [|done].
    by destruct (d (sent s3 ++ _) _). }
  destruct (d (sent s ++ [files_list]) q) as [results|text] eqn:Eq.
  - destruct (default [] (res_files results)) as [|found l].
    + destruct (d ((sent s ++ [files_list]) ++ [q]) c) as [folder|text] eqn:Ec.
      * destruct (res_id folder) as [[|c0 t]|]; [done| |done].
        destruct (bool_decide (cur <> c0 :: t)); [|done]. intros H. by apply Hmove in H.
      * intros [= <- <-]. exists d, text, ((sent s ++ [files_list]) ++ [q]), c.
        split_and!; [done|done|by rewrite <- !(assoc_L (++))|done|by right|].
        intros a b c0. rewrite !elem_of_app, !elem_of_cons, elem_of_nil.
        intuition discriminate.
    + destruct (id found) as [|c0 t]; [done|].
      destruct (bool_decide (cur <> c0 :: t)); [|done]. intros H. by apply Hmove in H.
  - intros [= <- <-]. exists d, text, (sent s ++ [files_list]), q.
    split_and!; [done|done|done|done|by left|].
    intros a b c0. rewrite !elem_of_app, !elem_of_cons, elem_of_nil.
    intuition discriminate.
Qed.

Lemma sort_demo_raises_witness :
  exists d text before r,
    Some listing_only_drive = Some d /\ Error (py "not found") = Error text /\
    [files_list; files_search (folder_query TARGET_FOLDER_NAME)] = before ++ [r] /\
    d before r = Failed text /\
    (r = files_search (folder_query TARGET_FOLDER_NAME) \/
     r = files_create TARGET_FOLDER_NAME folder_mime) /\
    forall a b c,
      files_update a b c ∈ [files_list; files_search (folder_query TARGET_FOLDER_NAME)] ->
      files_update a b c ∈ sent (Session (World [] []) []).
Proof.
  apply (sort_demo_raises (Some listing_only_drive) (Session (World [] []) [])).
  by vm_compute.
Defined.

(** [sort_demo] moves one record at most, and then the first record of
    the batch, in the order fetched, that is no folder and has a parent:
    whatever the service replies, a request to move is the last request
    sent, for the identifier of that record, into a folder with an
    identifier that is not empty and not the record's first parent. *)
Theorem sort_demo_moves_first_candidate service s requests :
  ended (sort_demo service s) requests ->
  exists new,
    requests = sent s ++ new /\
    forall pre fileId addParents removeParents post,
      new = pre ++ files_update fileId addParents removeParents :: post ->
      post = [] /\ (forall r, r ∈ pre -> is_update r = false) /\
      exists f cur ps,
        first_movable (next_batch service s) f /\
        parents f = Some (cur :: ps) /\
        fileId = id f /\ addParents <> [] /\ addParents <> cur.
Proof.
  destruct service as [d|].
  - intros (new & -> & [Hfree|Hmove])%sort_demo_requests; exists new; (split; [done|]).
    + intros pre fileId a b post Hnew.
      by destruct (no_update new pre post (files_update fileId a b) Hfree eq_refl Hnew).
    + destruct Hmove as (l & f & cur & ps & target & gone & -> & Hl & Hf & Hps & Ht & Hcur).
      intros pre fileId a b post Hnew.
      apply last_update in Hnew as (-> & -> & [= <- <- <-]); [|done|done].
      split_and!; [done|done|]. by exists f, cur, ps.
  - intros [(u & s' & [= _ <-] & <-)|(e & [=])]. exists []. split; [by rewrite app_nil_r|].
    intros pre fileId a b post Hnew. by destruct pre.
Qed.

Lemma sort_demo_moves_first_candidate_witness :
  exists new,
    [files_list; files_search (folder_query TARGET_FOLDER_NAME);
     files_create TARGET_FOLDER_NAME folder_mime; files_get (py "f1");
     files_update (py "f1") (py "a1") (py "p1")] =
      sent (Session (World [] []) []) ++ new /\
    forall pre fileId addParents removeParents post,
      new = pre ++ files_update fileId addParents removeParents :: post ->
      post = [] /\ (forall r, r ∈ pre -> is_update r = false) /\
      exists f cur ps,
        first_movable (next_batch (Some small_drive) (Session (World [] []) [])) f /\
        parents f = Some (cur :: ps) /\
        fileId = id f /\ addParents <> [] /\ addParents <> cur.
Proof.
  apply (sort_demo_moves_first_candidate (Some small_drive) (Session (World [] []) [])).
  left. eexists tt, _. split; [by vm_compute|done].
Defined.

(** With a service and a batch in which every record is a folder or has
    no parent, as when the listing request fails, [sort_demo] prints its
    warning behind what the fetch printed and returns: the listing request
    is the one request sent, and no archive folder is looked for or
    created. *)
Theorem sort_demo_nothing_to_move d s :
  (forall g, g ∈ next_batch (Some d) s -> ~ movable g) ->
  sort_demo (Some d) s =
    Returns tt
      (Session
         (World (heap (fetched (next_batch (Some d) s)))
            (stdout (state s) ++ msg_sorting :: fetch_lines (Some d) s
               ++ [msg_no_candidate]))
         (sent s ++ [files_list])).
Proof.
  intros Hnone%file_to_move_None. rewrite sort_demo_eval. cbn zeta.
  rewrite Hnone, say_eval. cbn [sent state heap stdout].
  by rewrite <- (assoc_L (++)).
Qed.

Lemma sort_demo_nothing_to_move_witness :
  sort_demo (Some nested_drive) (Session (World [] []) []) =
    Returns tt
      (Session
         (World (heap (fetched child_first))
            ([] ++ msg_sorting :: [msg_fetching] ++ [msg_no_candidate]))
         [files_list]).
Proof.
  apply (sort_demo_nothing_to_move nested_drive (Session (World [] []) [])).
  intros g Hg [Hm _]. apply Hm.
  apply elem_of_cons in Hg as [->|Hg]; [done|].
  apply elem_of_cons in Hg as [->|Hg]; [done|].
  by apply elem_of_nil in Hg.
Defined.

(** [_move_file] never raises: a failure of either request, a reply
    without the key ['parents'], or a missing service is printed.  The
    move is requested only after the record's parents were read, and it
    takes the record out of all of them, whatever [current_parent_id]
    is, and into [new_parent_id]. *)
Theorem move_file_returns service file_id current_parent_id new_parent_id s :
  exists lines new,
    _move_file service file_id current_parent_id new_parent_id s =
      Returns tt
        (Session (World (heap (state s)) (stdout (state s) ++ lines)) (sent s ++ new)) /\
    ((service = None /\ new = []) \/
     (service <> None /\ new = [files_get file_id]) \/
     exists d got gone,
       service = Some d /\ d (sent s) (files_get file_id) = Returned got /\
       res_parents got = Some gone /\
       new = [files_get file_id;
              files_update file_id new_parent_id (join (py ",") gone)]).
Proof.
  destruct service as [d|].
  - rewrite move_eval. cbn zeta.
    destruct (d (sent s) _) as [file|e] eqn:Eg.
    + destruct (res_parents file) as [gone|] eqn:Egone.
      * destruct (d (sent s ++ _) _) as [moved|e];
          eexists _, _; (split; [done|]); right; right; by exists d, file, gone.
      * eexists _, _. split; [done|]. right. by left.
    + eexists _, _. split; [done|]. right. by left.
  - exists [msg_move_error no_service_text], []. split; [|by left].
    unfold _move_file, api_bind, execute. rewrite say_eval. by rewrite app_nil_r.
Qed.

(** ** No record is attached to a later one *)

Lemma ancestor_not_later (w : world) :
  (forall c p, child_of w c p -> p <= c) ->
  forall a b, tc (fun c p => child_of w c p) a b -> b <= a.
Proof.
  intros Hle a b H. induction H as [a b H|a b c H _ IH].
  - by apply Hle.
  - apply Hle in H. lia.
Qed.

(** In the forest of a completed build, for a batch with unique
    identifiers, a record in a children list was fetched after the record
    that holds the list, or is that record; so the only way round from a
    record to itself through children lists is a folder that is its own
    child. *)
Theorem build_parents_first files tree w :
  NoDup (id <$> files) ->
  _build_tree files (fetched files) = Done (tree, w) ->
  (forall c p, child_of w c p -> p <= c) /\
  (forall a, tc (fun c p => child_of w c p) a a -> child_of w a a).
Proof.
  intros Hnd H. pose proof (build_tree_built files Hnd [] tree w H) as Hb.
  assert (Hle : forall c p, child_of w c p -> p <= c).
  { intros c p [Hp Hc]%(built_child_of files [] tree w c p Hb).
    by apply (built_order _ _ _ _ _ Hb). }
  split; [done|]. intros a Ha. inversion Ha as [? ? Hstep|? b ? Hstep Hrest]; subst; [done|].
  pose proof (Hle _ _ Hstep). pose proof (ancestor_not_later w Hle _ _ Hrest).
  by replace a with b at 2 by lia.
Qed.

Lemma build_parents_first_witness :
  (forall c p, child_of (World (final_heap docs_batch) []) c p -> p <= c) /\
  (forall a, tc (fun c p => child_of (World (final_heap docs_batch) []) c p) a a ->
     child_of (World (final_heap docs_batch) []) a a).
Proof.
  refine (build_parents_first docs_batch [(py "1", 0); (py "3", 2)] (World _ []) _ _).
  - apply (bool_decide_unpack _). by vm_compute.
  - by vm_compute.
Defined.

(** * The lines of siblings *)


Section Lineage.

Variable files : list file.

Hypothesis parents_first : forall c p, parent_of files c = Some p -> p <= c.















End Lineage.






(** * Siblings are taken in sorted order *)

Lemma built_is_folder files out tree w c :
  built files out (length files) tree w -> c < length files ->
  is_folder (obj w c) = Some (is_folder_type (record files c)).
Proof.
  intros Hb Hc. by rewrite (obj_lookup _ _ _ (built_done _ _ _ _ _ Hb c Hc)).
Qed.

(** Rendering takes siblings in sorted order.  In the state a completed
    build of a batch with unique identifiers leaves, [list_files] prints
    the top-level records, and [_print_tree] prints the records of the
    children list of a folder behind the line of the folder, one after the
    other in an order that holds the same records, every Folder before
    every regular file and the names ascending within a kind. *)
Theorem render_takes_sorted files tree w fuel :
  NoDup (id <$> files) ->
  _build_tree files (fetched files) = Done (tree, w) ->
  (exists rs,
     rs ≡ₚ values tree /\ StronglySorted (sibling_le files w) rs /\
     print_forest files fuel tree w =
       match rs with
       | [] => print msg_no_roots w
       | _ => for_each (fun r => _print_tree files fuel r 0) rs w
       end) /\
  (forall p l level,
     children (obj w p) = Some l -> l <> [] ->
     exists cs,
       cs ≡ₚ l /\ StronglySorted (sibling_le files w) cs /\
       _print_tree files (S fuel) p level w =
         (print (format_line files level true p) ;;;
          for_each (fun c => _print_tree files fuel c (level + 1)) cs) w).
Proof.
  intros Hnd H. pose proof (build_tree_built files Hnd [] tree w H) as Hb. split.
  - assert (Hs : sorted (sort_key files) (values tree) w =
                 Done (order files (values tree), w)).
    { apply sorted_built. intros c Hc.
      apply (built_top files [] tree w c Hb) in Hc as [_ Hc].
      by apply (built_is_folder files [] tree). }
    destruct (sorted_siblings _ _ _ _ _ Hs) as (_ & Hperm & Hsorted).
    exists (order files (values tree)). split_and!; [done|done|].
    unfold print_forest, bind. rewrite Hs. by destruct (order files (values tree)).
  - intros p l level Hl Hne.
    assert (Hp : p < length files).
    { destruct (decide (p < length files)) as [|Hp]; [done|].
      unfold obj in Hl. rewrite lookup_ge_None_2 in Hl; [done|].
      rewrite (built_length _ _ _ _ _ Hb). lia. }
    pose proof (obj_lookup _ _ _ (built_done _ _ _ _ _ Hb p Hp)) as Hobj.
    rewrite Hobj in Hl. injection Hl as <-.
    destruct (is_folder_type (record files p)) eqn:Efolder.
    2:{ by rewrite (kids_not_folder files _ p Efolder) in Hne. }
    set (l := kids files (length files) p) in *.
    set (w1 := World (heap w) (stdout w ++ [format_line files level true p])).
    assert (Hs : sorted (sort_key files) l w1 = Done (order files l, w1)).
    { apply sorted_built. intros c Hc. apply kids_elem in Hc as [_ Hc].
      by apply (built_is_folder files [] tree w c Hb). }
    destruct (sorted_siblings _ _ _ _ _ Hs) as (_ & Hperm & Hsorted).
    exists (order files l). split_and!; [done|done|].
    cbn [_print_tree]. unfold bind at 1. unfold get_is_folder at 1. rewrite Hobj.
    cbn [is_folder]. change (truthy_bool (Some true)) with true. cbn [andb].
    unfold bind at 1 3. unfold print. fold w1.
    unfold bind at 1. unfold get_children at 1.
    change (obj w1 p) with (obj w p). rewrite Hobj. cbn [children].
    assert (Ht : truthy_list (Some l) = true) by (by destruct l).
    rewrite Ht. unfold bind at 1. unfold getitem_children at 1.
    change (obj w1 p) with (obj w p). rewrite Hobj. cbn [children].
    unfold bind at 1. by rewrite Hs.
Qed.

Lemma render_takes_sorted_witness :
  (exists rs,
     rs ≡ₚ values (roots docs_batch 3) /\
     StronglySorted (sibling_le docs_batch (World (final_heap docs_batch) [])) rs /\
     print_forest docs_batch 2 (roots docs_batch 3) (World (final_heap docs_batch) []) =
       match rs with
       | [] => print msg_no_roots (World (final_heap docs_batch) [])
       | _ =>
           for_each (fun r => _print_tree docs_batch 2 r 0) rs
             (World (final_heap docs_batch) [])
       end) /\
  (forall p l level,
     children (obj (World (final_heap docs_batch) []) p) = Some l -> l <> [] ->
     exists cs,
       cs ≡ₚ l /\
       StronglySorted (sibling_le docs_batch (World (final_heap docs_batch) [])) cs /\
       _print_tree docs_batch 3 p level (World (final_heap docs_batch) []) =
         (print (format_line docs_batch level true p) ;;;
          for_each (fun c => _print_tree docs_batch 2 c (level + 1)) cs)
           (World (final_heap docs_batch) [])).
Proof.
  refine (render_takes_sorted docs_batch _ (World _ []) 2 _ _).
  - apply (bool_decide_unpack _). by vm_compute.
  - by vm_compute.
Defined.
